(** * dx12_demos: the [tiny] and [triangle] samples

    A shallow embedding of [src/samples/tiny/main.cpp] and
    [samples/triangle/triangle.cpp].  Both samples are straight-line
    programs over the Direct3D 12 API: the embedding threads the program's
    globals and a model of the outside world (file system, swap chain,
    command queue, fence) through a small state monad that also collects the
    API calls made, in order.  Running off an array, blocking for ever, an
    exception that nothing catches and an exhausted environment script make
    a computation undefined ([None]). *)

From Stdlib Require Import ZArith List String Ascii Bool Lia Sorted.
From Stdlib Require Import Strings.Byte.
Import ListNotations.
Open Scope Z_scope.

(** ** Machine integers *)

(** [uint64_t] and [size_t] arithmetic wraps modulo 2^64. *)
Definition wrap64 (z : Z) : Z := z mod 2 ^ 64.

(** [UINT] to [int32_t] conversion, as in
    [int32_t nextFrameIndex = swapChain->GetCurrentBackBufferIndex()]. *)
Definition int32_of_uint32 (z : Z) : Z :=
  if z <? 2 ^ 31 then z else z - 2 ^ 32.

(** [HRESULT] codes. *)
Definition HRESULT := Z.
Definition S_OK : HRESULT := 0.
Definition E_FAIL : HRESULT := -2147467259. (* 0x80004005 *)

(** A [float] literal, kept as its IEEE-754 binary32 bit pattern. *)
Definition float32 := Z.
Definition f_0_0 : float32 := 0.
Definition f_0_2 : float32 := 1045220557. (* 0x3E4CCCCD *)
Definition f_0_4 : float32 := 1053609165. (* 0x3ECCCCCD *)
Definition f_1_0 : float32 := 1065353216. (* 0x3F800000 *)

(** ** [kFrameCount], the same in both samples *)

Definition kFrameCount : Z := 3.

(** ** Array access *)

(** Indexing with a signed index; out of range is undefined behaviour. *)
Definition nth_z {A} (l : list A) (i : Z) : option A :=
  if i <? 0 then None else nth_error l (Z.to_nat i).

Fixpoint set_nth {A} (l : list A) (n : nat) (v : A) : option (list A) :=
  match l, n with
  | [], _ => None
  | _ :: t, O => Some (v :: t)
  | x :: t, S n' => option_map (cons x) (set_nth t n' v)
  end.

Definition upd_z {A} (l : list A) (i : Z) (v : A) : option (list A) :=
  if i <? 0 then None else set_nth l (Z.to_nat i) v.

(** ** Handles, queue items and API calls *)

Definition Handle := Z.
Definition nullptr : Handle := 0.

Inductive ObjKind :=
| KDevice | KCommandQueue | KSwapChain | KDescriptorHeap | KResource
| KCommandAllocator | KCommandList | KRootSignature | KPipelineState
| KFence (initialValue : Z)
| KOsEvent.

Inductive ResourceState := STATE_PRESENT | STATE_RENDER_TARGET.

(** What the command queue holds until the GPU retires it. *)
Inductive QItem :=
| QExec (allocator : Handle)   (* a command list recorded in [allocator] *)
| QPresent
| QSignal (value : Z).

Inductive Event :=
| EvCreate (k : ObjKind) (h : Handle)
| EvCreateDepthStencilView (resource : Handle) (dsv : Z)
| EvGetModuleFileName (size : nat) (result : string)
| EvOpen (path : string) (ok : bool)
| EvFileSize (path : string) (size : nat)
| EvRead (count : nat) (got : nat)
| EvAllocatorReset (allocator : Handle)
| EvListReset (list allocator : Handle)
| EvResourceBarrier (resource : Handle) (before after : ResourceState)
| EvSetPipelineState (pso : Handle)
| EvOMSetRenderTargets (rtv : Z) (dsv : option Z)
| EvClearRenderTargetView (rtv : Z) (color : list float32)
| EvClearDepthStencilView (dsv : Z) (depth : float32) (stencil : Z)
| EvListClose (list : Handle)
| EvExecuteCommandLists (queue list : Handle)
| EvPresent (swapChain : Handle) (syncInterval flags : Z)
| EvSignal (queue fence : Handle) (value : Z)
| EvGetCurrentBackBufferIndex (swapChain : Handle) (result : Z)
| EvGetCompletedValue (fence : Handle) (result : Z)
| EvSetEventOnCompletion (fence : Handle) (value : Z) (event : Handle)
| EvWaitForSingleObjectEx (event : Handle).

(** ** The world outside the program *)

Record Gpu := mkGpu {
  fenceValue : Z;            (* the fence's completed value *)
  gpuQueue : list QItem      (* submitted and not yet retired, oldest first *)
}.

(** A file as the program meets it.  The program opens the file and then
    asks the file system for the size of the file of that path, and only
    then reads: the file may change in between, so what the stream
    delivers and what the file system reports are two answers of the
    environment. *)
Record File := mkFile {
  delivered : list byte;     (* what a stream opened on the file delivers *)
  reported : option nat      (* the size [file_size] reports; [None] when
                                it throws *)
}.

(** A file that holds [data] and is left alone. *)
Definition file_at_rest (data : list byte) : File :=
  mkFile data (Some (List.length data)).

Record World := mkWorld {
  modulePath : string;                   (* full path of the executable *)
  files : list (string * File);          (* the files that can be opened *)
  rtvHeapStart : Z;                      (* descriptor addresses and stride *)
  rtvIncrement : Z;
  dsvHeapStart : Z;
  nextHandle : Handle;                   (* next object to be created *)
  backBuffer : Z;                        (* the swap chain's current buffer *)
  gpu : Gpu;
  listAllocator : Handle;                (* allocator the list records in *)
  eventTarget : option Z;                (* fence value the event waits for *)
  presentOracle : list Z;                (* back buffer after each Present *)
  gpuOracle : list nat                   (* items retired before each poll *)
}.

Definition set_nextHandle v (w : World) : World :=
  mkWorld (modulePath w) (files w) (rtvHeapStart w) (rtvIncrement w)
    (dsvHeapStart w) v (backBuffer w) (gpu w) (listAllocator w)
    (eventTarget w) (presentOracle w) (gpuOracle w).
Definition set_backBuffer v (w : World) : World :=
  mkWorld (modulePath w) (files w) (rtvHeapStart w) (rtvIncrement w)
    (dsvHeapStart w) (nextHandle w) v (gpu w) (listAllocator w)
    (eventTarget w) (presentOracle w) (gpuOracle w).
Definition set_gpu v (w : World) : World :=
  mkWorld (modulePath w) (files w) (rtvHeapStart w) (rtvIncrement w)
    (dsvHeapStart w) (nextHandle w) (backBuffer w) v (listAllocator w)
    (eventTarget w) (presentOracle w) (gpuOracle w).
Definition set_listAllocator v (w : World) : World :=
  mkWorld (modulePath w) (files w) (rtvHeapStart w) (rtvIncrement w)
    (dsvHeapStart w) (nextHandle w) (backBuffer w) (gpu w) v
    (eventTarget w) (presentOracle w) (gpuOracle w).
Definition set_eventTarget v (w : World) : World :=
  mkWorld (modulePath w) (files w) (rtvHeapStart w) (rtvIncrement w)
    (dsvHeapStart w) (nextHandle w) (backBuffer w) (gpu w) (listAllocator w)
    v (presentOracle w) (gpuOracle w).
Definition set_presentOracle v (w : World) : World :=
  mkWorld (modulePath w) (files w) (rtvHeapStart w) (rtvIncrement w)
    (dsvHeapStart w) (nextHandle w) (backBuffer w) (gpu w) (listAllocator w)
    (eventTarget w) v (gpuOracle w).
Definition set_gpuOracle v (w : World) : World :=
  mkWorld (modulePath w) (files w) (rtvHeapStart w) (rtvIncrement w)
    (dsvHeapStart w) (nextHandle w) (backBuffer w) (gpu w) (listAllocator w)
    (eventTarget w) (presentOracle w) v.

(** The GPU retires the oldest queue item; a signal sets the fence. *)
Definition gpu_retire (g : Gpu) : Gpu :=
  match gpuQueue g with
  | [] => g
  | QSignal v :: q => mkGpu v q
  | _ :: q => mkGpu (fenceValue g) q
  end.

Fixpoint gpu_run (n : nat) (g : Gpu) : Gpu :=
  match n with
  | O => g
  | S n' => gpu_run n' (gpu_retire g)
  end.

(** The GPU runs until the fence has reached [target]; when the queue runs
    dry first, the waiting thread is never woken. *)
Fixpoint gpu_until_q (target fv : Z) (q : list QItem) : option Gpu :=
  if target <=? fv then Some (mkGpu fv q)
  else match q with
       | [] => None
       | QSignal v :: q' => gpu_until_q target v q'
       | _ :: q' => gpu_until_q target fv q'
       end.

Definition gpu_until (target : Z) (g : Gpu) : option Gpu :=
  gpu_until_q target (fenceValue g) (gpuQueue g).

(** ** The globals of a sample

    [tiny] has no depth buffer and leaves [depthStencilViewHeap] and
    [depthStencilTarget] null. *)

Record Globals := mkGlobals {
  device : Handle;
  commandQueue : Handle;
  commandAllocators : list Handle;       (* [kFrameCount] *)
  commandList : Handle;
  swapChain : Handle;
  swapChainRtvHeap : Handle;
  depthStencilViewHeap : Handle;
  pipelineState : Handle;
  pipelineRootSignature : Handle;
  renderTargets : list Handle;
  depthStencilTarget : Handle;
  vertexShader : list byte;
  pixelShader : list byte;
  frameIndex : Z;                        (* int32_t *)
  fenceEvent : Handle;
  swapFence : Handle;
  swapFenceCounter : Z;                  (* uint64_t *)
  swapFenceWaitValue : list Z            (* uint64_t [kFrameCount] *)
}.

(** The globals as the program starts: null handles, empty vectors, zeros. *)
Definition globals0 : Globals :=
  mkGlobals nullptr nullptr [nullptr; nullptr; nullptr] nullptr nullptr
    nullptr nullptr nullptr nullptr [] nullptr [] [] 0 nullptr nullptr
    0 [0; 0; 0].

Definition set_device v (g : Globals) : Globals :=
  mkGlobals v (commandQueue g) (commandAllocators g) (commandList g)
    (swapChain g) (swapChainRtvHeap g) (depthStencilViewHeap g)
    (pipelineState g) (pipelineRootSignature g) (renderTargets g)
    (depthStencilTarget g) (vertexShader g) (pixelShader g) (frameIndex g)
    (fenceEvent g) (swapFence g) (swapFenceCounter g) (swapFenceWaitValue g).
Definition set_commandQueue v (g : Globals) : Globals :=
  mkGlobals (device g) v (commandAllocators g) (commandList g)
    (swapChain g) (swapChainRtvHeap g) (depthStencilViewHeap g)
    (pipelineState g) (pipelineRootSignature g) (renderTargets g)
    (depthStencilTarget g) (vertexShader g) (pixelShader g) (frameIndex g)
    (fenceEvent g) (swapFence g) (swapFenceCounter g) (swapFenceWaitValue g).
Definition set_commandAllocators v (g : Globals) : Globals :=
  mkGlobals (device g) (commandQueue g) v (commandList g)
    (swapChain g) (swapChainRtvHeap g) (depthStencilViewHeap g)
    (pipelineState g) (pipelineRootSignature g) (renderTargets g)
    (depthStencilTarget g) (vertexShader g) (pixelShader g) (frameIndex g)
    (fenceEvent g) (swapFence g) (swapFenceCounter g) (swapFenceWaitValue g).
Definition set_commandList v (g : Globals) : Globals :=
  mkGlobals (device g) (commandQueue g) (commandAllocators g) v
    (swapChain g) (swapChainRtvHeap g) (depthStencilViewHeap g)
    (pipelineState g) (pipelineRootSignature g) (renderTargets g)
    (depthStencilTarget g) (vertexShader g) (pixelShader g) (frameIndex g)
    (fenceEvent g) (swapFence g) (swapFenceCounter g) (swapFenceWaitValue g).
Definition set_swapChain v (g : Globals) : Globals :=
  mkGlobals (device g) (commandQueue g) (commandAllocators g) (commandList g)
    v (swapChainRtvHeap g) (depthStencilViewHeap g)
    (pipelineState g) (pipelineRootSignature g) (renderTargets g)
    (depthStencilTarget g) (vertexShader g) (pixelShader g) (frameIndex g)
    (fenceEvent g) (swapFence g) (swapFenceCounter g) (swapFenceWaitValue g).
Definition set_swapChainRtvHeap v (g : Globals) : Globals :=
  mkGlobals (device g) (commandQueue g) (commandAllocators g) (commandList g)
    (swapChain g) v (depthStencilViewHeap g)
    (pipelineState g) (pipelineRootSignature g) (renderTargets g)
    (depthStencilTarget g) (vertexShader g) (pixelShader g) (frameIndex g)
    (fenceEvent g) (swapFence g) (swapFenceCounter g) (swapFenceWaitValue g).
Definition set_depthStencilViewHeap v (g : Globals) : Globals :=
  mkGlobals (device g) (commandQueue g) (commandAllocators g) (commandList g)
    (swapChain g) (swapChainRtvHeap g) v
    (pipelineState g) (pipelineRootSignature g) (renderTargets g)
    (depthStencilTarget g) (vertexShader g) (pixelShader g) (frameIndex g)
    (fenceEvent g) (swapFence g) (swapFenceCounter g) (swapFenceWaitValue g).
Definition set_pipelineState v (g : Globals) : Globals :=
  mkGlobals (device g) (commandQueue g) (commandAllocators g) (commandList g)
    (swapChain g) (swapChainRtvHeap g) (depthStencilViewHeap g)
    v (pipelineRootSignature g) (renderTargets g)
    (depthStencilTarget g) (vertexShader g) (pixelShader g) (frameIndex g)
    (fenceEvent g) (swapFence g) (swapFenceCounter g) (swapFenceWaitValue g).
Definition set_pipelineRootSignature v (g : Globals) : Globals :=
  mkGlobals (device g) (commandQueue g) (commandAllocators g) (commandList g)
    (swapChain g) (swapChainRtvHeap g) (depthStencilViewHeap g)
    (pipelineState g) v (renderTargets g)
    (depthStencilTarget g) (vertexShader g) (pixelShader g) (frameIndex g)
    (fenceEvent g) (swapFence g) (swapFenceCounter g) (swapFenceWaitValue g).
Definition set_renderTargets v (g : Globals) : Globals :=
  mkGlobals (device g) (commandQueue g) (commandAllocators g) (commandList g)
    (swapChain g) (swapChainRtvHeap g) (depthStencilViewHeap g)
    (pipelineState g) (pipelineRootSignature g) v
    (depthStencilTarget g) (vertexShader g) (pixelShader g) (frameIndex g)
    (fenceEvent g) (swapFence g) (swapFenceCounter g) (swapFenceWaitValue g).
Definition set_depthStencilTarget v (g : Globals) : Globals :=
  mkGlobals (device g) (commandQueue g) (commandAllocators g) (commandList g)
    (swapChain g) (swapChainRtvHeap g) (depthStencilViewHeap g)
    (pipelineState g) (pipelineRootSignature g) (renderTargets g)
    v (vertexShader g) (pixelShader g) (frameIndex g)
    (fenceEvent g) (swapFence g) (swapFenceCounter g) (swapFenceWaitValue g).
Definition set_vertexShader v (g : Globals) : Globals :=
  mkGlobals (device g) (commandQueue g) (commandAllocators g) (commandList g)
    (swapChain g) (swapChainRtvHeap g) (depthStencilViewHeap g)
    (pipelineState g) (pipelineRootSignature g) (renderTargets g)
    (depthStencilTarget g) v (pixelShader g) (frameIndex g)
    (fenceEvent g) (swapFence g) (swapFenceCounter g) (swapFenceWaitValue g).
Definition set_pixelShader v (g : Globals) : Globals :=
  mkGlobals (device g) (commandQueue g) (commandAllocators g) (commandList g)
    (swapChain g) (swapChainRtvHeap g) (depthStencilViewHeap g)
    (pipelineState g) (pipelineRootSignature g) (renderTargets g)
    (depthStencilTarget g) (vertexShader g) v (frameIndex g)
    (fenceEvent g) (swapFence g) (swapFenceCounter g) (swapFenceWaitValue g).
Definition set_frameIndex v (g : Globals) : Globals :=
  mkGlobals (device g) (commandQueue g) (commandAllocators g) (commandList g)
    (swapChain g) (swapChainRtvHeap g) (depthStencilViewHeap g)
    (pipelineState g) (pipelineRootSignature g) (renderTargets g)
    (depthStencilTarget g) (vertexShader g) (pixelShader g) v
    (fenceEvent g) (swapFence g) (swapFenceCounter g) (swapFenceWaitValue g).
Definition set_fenceEvent v (g : Globals) : Globals :=
  mkGlobals (device g) (commandQueue g) (commandAllocators g) (commandList g)
    (swapChain g) (swapChainRtvHeap g) (depthStencilViewHeap g)
    (pipelineState g) (pipelineRootSignature g) (renderTargets g)
    (depthStencilTarget g) (vertexShader g) (pixelShader g) (frameIndex g)
    v (swapFence g) (swapFenceCounter g) (swapFenceWaitValue g).
Definition set_swapFence v (g : Globals) : Globals :=
  mkGlobals (device g) (commandQueue g) (commandAllocators g) (commandList g)
    (swapChain g) (swapChainRtvHeap g) (depthStencilViewHeap g)
    (pipelineState g) (pipelineRootSignature g) (renderTargets g)
    (depthStencilTarget g) (vertexShader g) (pixelShader g) (frameIndex g)
    (fenceEvent g) v (swapFenceCounter g) (swapFenceWaitValue g).
Definition set_swapFenceCounter v (g : Globals) : Globals :=
  mkGlobals (device g) (commandQueue g) (commandAllocators g) (commandList g)
    (swapChain g) (swapChainRtvHeap g) (depthStencilViewHeap g)
    (pipelineState g) (pipelineRootSignature g) (renderTargets g)
    (depthStencilTarget g) (vertexShader g) (pixelShader g) (frameIndex g)
    (fenceEvent g) (swapFence g) v (swapFenceWaitValue g).
Definition set_swapFenceWaitValue v (g : Globals) : Globals :=
  mkGlobals (device g) (commandQueue g) (commandAllocators g) (commandList g)
    (swapChain g) (swapChainRtvHeap g) (depthStencilViewHeap g)
    (pipelineState g) (pipelineRootSignature g) (renderTargets g)
    (depthStencilTarget g) (vertexShader g) (pixelShader g) (frameIndex g)
    (fenceEvent g) (swapFence g) (swapFenceCounter g) v.

(** ** The monad: state, undefinedness and the trace of API calls *)

Record St := mkSt { globals : Globals; world : World }.

Definition M (A : Type) : Type := St -> option (A * St * list Event).

Definition ret {A} (a : A) : M A := fun s => Some (a, s, []).

Definition bind {A B} (m : M A) (f : A -> M B) : M B :=
  fun s =>
    match m s with
    | None => None
    | Some (a, s1, t1) =>
        match f a s1 with
        | None => None
        | Some (b, s2, t2) => Some (b, s2, t1 ++ t2)
        end
    end.

Declare Scope m_scope.
Delimit Scope m_scope with m.
Notation "x <- m ;; k" := (bind m (fun x => k))
  (at level 61, m at next level, right associativity) : m_scope.
Notation "m ;; k" := (bind m (fun _ => k))
  (at level 61, right associativity) : m_scope.
Open Scope m_scope.

Definition undefined {A} : M A := fun _ => None.
Definition emit (e : Event) : M unit := fun s => Some (tt, s, [e]).
Definition of_option {A} (o : option A) : M A :=
  match o with Some a => ret a | None => undefined end.
Definition getG {A} (f : Globals -> A) : M A :=
  fun s => Some (f (globals s), s, []).
Definition modG (f : Globals -> Globals) : M unit :=
  fun s => Some (tt, mkSt (f (globals s)) (world s), []).
Definition getW {A} (f : World -> A) : M A :=
  fun s => Some (f (world s), s, []).
Definition modW (f : World -> World) : M unit :=
  fun s => Some (tt, mkSt (globals s) (f (world s)), []).

(** The state, resp. the trace, of a finished computation. *)
Definition final {A} (r : option (A * St * list Event)) : option St :=
  match r with Some (_, s, _) => Some s | None => None end.
Definition trace {A} (r : option (A * St * list Event)) : list Event :=
  match r with Some (_, _, t) => t | None => [] end.

(** ** Paths and files

    [std::filesystem::path] as the Windows standard library has it, over
    strings of 8-bit characters.  A path is its text.  Its root name is a
    drive ([X:]), a server ([\\server]) or a device prefix ([\\?], [\\.],
    [\??]); the separators after the root name are the root directory. *)

Definition separator : ascii := ascii_of_nat 92.   (* [preferred_separator] *)
Definition is_separator (c : ascii) : bool :=
  Ascii.eqb c separator || Ascii.eqb c (ascii_of_nat 47).

Definition colon : ascii := ascii_of_nat 58.
Definition question_mark : ascii := ascii_of_nat 63.
Definition full_stop : ascii := ascii_of_nat 46.

Definition is_letter (c : ascii) : bool :=
  let n := nat_of_ascii c in
  (Nat.leb 65 n && Nat.leb n 90) || (Nat.leb 97 n && Nat.leb n 122).

Definition is_name_char (c : ascii) : bool := negb (is_separator c).

Fixpoint take_while {A} (f : A -> bool) (l : list A) : list A :=
  match l with
  | x :: l' => if f x then x :: take_while f l' else []
  | [] => []
  end.

Fixpoint drop_while {A} (f : A -> bool) (l : list A) : list A :=
  match l with
  | x :: l' => if f x then drop_while f l' else l
  | [] => []
  end.

Definition has_drive_prefix (p : list ascii) : bool :=
  match p with
  | c0 :: c1 :: _ => is_letter c0 && Ascii.eqb c1 colon
  | _ => false
  end.

(** The length of the root name: [X:], then the device prefixes, which end
    before a single separator, then [\\server], which runs to the next
    separator. *)
Definition root_name_length (p : list ascii) : nat :=
  match p with
  | c0 :: c1 :: r =>
      if has_drive_prefix p then 2
      else if negb (is_separator c0) then 0
      else
        match r with
        | c2 :: r2 =>
            if match r2 with
               | c3 :: r3 =>
                   is_separator c3
                   && match r3 with
                      | c4 :: _ => negb (is_separator c4)
                      | [] => true
                      end
                   && ((is_separator c1
                        && (Ascii.eqb c2 question_mark
                            || Ascii.eqb c2 full_stop))
                       || (Ascii.eqb c1 question_mark
                           && Ascii.eqb c2 question_mark))
               | [] => false
               end
            then 3
            else if is_separator c1 && negb (is_separator c2)
                 then 3 + List.length (take_while is_name_char r2)
                 else 0
        | [] => 0
        end
  | _ => 0
  end.

(** [path::is_absolute()]: a drive needs a root directory, the other root
    names are absolute as they are. *)
Definition is_absolute (p : list ascii) : bool :=
  if has_drive_prefix p
  then match p with
       | _ :: _ :: c2 :: _ => is_separator c2
       | _ => false
       end
  else negb (Nat.eqb (root_name_length p) 0).

(** Where the relative path starts: after the root name and the separators
    that follow it. *)
Definition relative_path_start (p : list ascii) : nat :=
  let n := root_name_length p in
  n + List.length (take_while is_separator (skipn n p)).

(** [path::parent_path()]: from the end of the relative path the file name
    goes, then the separators before it; the root stays. *)
Definition parent_path_chars (p : list ascii) : list ascii :=
  let n := relative_path_start p in
  let without_name := drop_while is_name_char (rev (skipn n p)) in
  firstn n p ++ rev (drop_while is_separator without_name).

Definition parent_path (p : string) : string :=
  string_of_list_ascii (parent_path_chars (list_ascii_of_string p)).

(** The left operand of [operator/] made ready for a relative right
    operand: a separator is added after a file name, and after a server
    name that stands alone. *)
Definition with_separator (p : list ascii) : list ascii :=
  if Nat.eqb (root_name_length p) (List.length p)
  then if Nat.leb 3 (root_name_length p) then p ++ [separator] else p
  else if is_separator (last p separator) then p else p ++ [separator].

(** [operator/]: an absolute right operand, or one with another root name,
    replaces the left one; one with a root directory keeps only the left
    root name; any other is appended.  The right root name is left out. *)
Definition path_append_chars (p q : list ascii) : list ascii :=
  let pn := root_name_length p in
  let qn := root_name_length q in
  if is_absolute q then q
  else if negb (Nat.eqb qn 0)
          && negb (String.eqb (string_of_list_ascii (firstn pn p))
                     (string_of_list_ascii (firstn qn q)))
  then q
  else
    match skipn qn q with
    | c :: r => if is_separator c then firstn pn p ++ c :: r
                else with_separator p ++ c :: r
    | [] => with_separator p
    end.

Definition path_append (p q : string) : string :=
  string_of_list_ascii
    (path_append_chars (list_ascii_of_string p) (list_ascii_of_string q)).

Fixpoint lookup_file (fs : list (string * File)) (p : string)
  : option File :=
  match fs with
  | [] => None
  | (name, f) :: fs' =>
      if String.eqb name p then Some f else lookup_file fs' p
  end.

(** A [std::ifstream] opened in binary mode. *)
Record ifstream := mkStream {
  contents : list byte;
  position : nat;
  good : bool                (* [static_cast<bool>(file)] *)
}.

(** [GetModuleFileName(nullptr, buffer, size)]: the module path, cut to
    [size - 1] characters when it does not fit the buffer with its
    terminator. *)
Definition module_file_name (size : nat) (p : string) : string :=
  if Nat.ltb (String.length p) size then p else substring 0 (size - 1) p.

Definition GetModuleFileName (size : nat) : M string :=
  p <- getW modulePath;;
  let r := module_file_name size p in
  emit (EvGetModuleFileName size r);;
  ret r.

Definition ifstream_open (path : string) : M ifstream :=
  fs <- getW files;;
  match lookup_file fs path with
  | Some f => emit (EvOpen path true);; ret (mkStream (delivered f) 0 true)
  | None => emit (EvOpen path false);; ret (mkStream [] 0 false)
  end.

(** [std::filesystem::file_size(path)]: it throws when the file system has
    no size for the path; nothing in the samples catches the exception. *)
Definition file_size (path : string) : M nat :=
  fs <- getW files;;
  match lookup_file fs path with
  | Some f =>
      match reported f with
      | Some size => emit (EvFileSize path size);; ret size
      | None => undefined
      end
  | None => undefined
  end.

(** [std::vector<uint8_t>::resize]: truncate, or pad with zero bytes. *)
Definition resize (v : list byte) (n : nat) : list byte :=
  firstn n v ++ repeat x00 (n - List.length v).

(** [file.read(buffer, count)]: copies what is left of the file, [count]
    bytes at most, over the start of the buffer; coming up short sets the
    stream's fail bit.  Writing past the end of the buffer is undefined.  A
    stream that is not good reads nothing. *)
Definition ifstream_read (f : ifstream) (buffer : list byte) (count : nat)
  : M (ifstream * list byte) :=
  if good f then
    let got := firstn count (skipn (position f) (contents f)) in
    if Nat.leb (List.length got) (List.length buffer) then
      emit (EvRead count (List.length got));;
      ret (mkStream (contents f) (position f + List.length got)
             (Nat.eqb (List.length got) count),
           got ++ skipn (List.length got) buffer)
    else undefined
  else ret (f, buffer).

(** ** The Direct3D 12 calls the samples make *)

Definition create (k : ObjKind) : M Handle :=
  h <- getW nextHandle;;
  modW (set_nextHandle (h + 1));;
  emit (EvCreate k h);;
  ret h.

Fixpoint create_n (k : ObjKind) (n : nat) : M (list Handle) :=
  match n with
  | O => ret []
  | S n' => h <- create k;; t <- create_n k n';; ret (h :: t)
  end.

(** A new command queue holds nothing. *)
Definition createCommandQueue : M Handle :=
  h <- create KCommandQueue;;
  modW (fun w => set_gpu (mkGpu (fenceValue (gpu w)) []) w);;
  ret h.

(** A new swap chain shows its first buffer. *)
Definition createSwapChainForHwnd : M Handle :=
  h <- create KSwapChain;;
  modW (set_backBuffer 0);;
  ret h.

(** One render target per buffer of the swap chain. *)
Definition createRenderTargetViews (bufferCount : Z) : M (list Handle) :=
  create_n KResource (Z.to_nat bufferCount).

(** A new command list is open and records into [allocator]. *)
Definition createCommandList (allocator : Handle) : M Handle :=
  h <- create KCommandList;;
  modW (set_listAllocator allocator);;
  ret h.

Definition createFence (initialValue : Z) : M Handle :=
  h <- create (KFence initialValue);;
  modW (fun w => set_gpu (mkGpu initialValue (gpuQueue (gpu w))) w);;
  ret h.

Definition CreateEvent : M Handle :=
  h <- create KOsEvent;;
  modW (set_eventTarget None);;
  ret h.

Definition enqueue (it : QItem) : M unit :=
  modW (fun w => set_gpu (mkGpu (fenceValue (gpu w)) (gpuQueue (gpu w) ++ [it])) w).

Definition commandAllocator_Reset (allocator : Handle) : M unit :=
  emit (EvAllocatorReset allocator).

Definition commandList_Reset (allocator : Handle) : M unit :=
  l <- getG commandList;;
  modW (set_listAllocator allocator);;
  emit (EvListReset l allocator).

Definition ResourceBarrier (resource : Handle) (before after : ResourceState)
  : M unit :=
  emit (EvResourceBarrier resource before after).

Definition SetPipelineState (pso : Handle) : M unit :=
  emit (EvSetPipelineState pso).

Definition OMSetRenderTargets (rtv : Z) (dsv : option Z) : M unit :=
  emit (EvOMSetRenderTargets rtv dsv).

Definition ClearRenderTargetView (rtv : Z) (color : list float32) : M unit :=
  emit (EvClearRenderTargetView rtv color).

Definition ClearDepthStencilView (dsv : Z) (depth : float32) (stencil : Z)
  : M unit :=
  emit (EvClearDepthStencilView dsv depth stencil).

Definition commandList_Close : M unit :=
  l <- getG commandList;;
  emit (EvListClose l).

(** The list goes to the queue together with the allocator it was
    recorded in. *)
Definition ExecuteCommandLists : M unit :=
  q <- getG commandQueue;;
  l <- getG commandList;;
  a <- getW listAllocator;;
  enqueue (QExec a);;
  emit (EvExecuteCommandLists q l).

(** Presenting queues the flip and moves the swap chain to the buffer the
    environment chooses. *)
Definition Present (syncInterval flags : Z) : M unit :=
  sc <- getG swapChain;;
  o <- getW presentOracle;;
  match o with
  | [] => undefined
  | b :: o' =>
      modW (set_presentOracle o');;
      enqueue QPresent;;
      modW (set_backBuffer b);;
      emit (EvPresent sc syncInterval flags)
  end.

Definition Signal (fence : Handle) (value : Z) : M unit :=
  q <- getG commandQueue;;
  enqueue (QSignal value);;
  emit (EvSignal q fence value).

Definition GetCurrentBackBufferIndex : M Z :=
  sc <- getG swapChain;;
  b <- getW backBuffer;;
  emit (EvGetCurrentBackBufferIndex sc b);;
  ret b.

(** Reading the fence observes how far the GPU has come by now. *)
Definition GetCompletedValue (fence : Handle) : M Z :=
  o <- getW gpuOracle;;
  match o with
  | [] => undefined
  | k :: o' =>
      modW (set_gpuOracle o');;
      modW (fun w => set_gpu (gpu_run k (gpu w)) w);;
      v <- getW (fun w => fenceValue (gpu w));;
      emit (EvGetCompletedValue fence v);;
      ret v
  end.

Definition SetEventOnCompletion (fence : Handle) (value : Z) (event : Handle)
  : M unit :=
  modW (set_eventTarget (Some value));;
  emit (EvSetEventOnCompletion fence value event).

(** [WaitForSingleObjectEx(event, INFINITE, FALSE)] on the auto-reset
    event: returns once the fence has reached the value the event was
    registered for. *)
Definition WaitForSingleObjectEx (event : Handle) : M unit :=
  t <- getW eventTarget;;
  match t with
  | None => undefined
  | Some v =>
      g <- getW gpu;;
      g' <- of_option (gpu_until v g);;
      modW (set_gpu g');;
      modW (set_eventTarget None);;
      emit (EvWaitForSingleObjectEx event)
  end.

(** ** [readShader], the same function in both samples

    The vector passed by reference comes in as [outShaderData] and goes
    out as the second component of the result. *)
Definition readShader (filePath : string) (outShaderData : list byte)
  : M (HRESULT * list byte) :=
  modulePathBuffer <- GetModuleFileName 1024;;
  let fullFilePath := path_append (parent_path modulePathBuffer) filePath in
  file <- ifstream_open fullFilePath;;
  if good file then
    fileSize <- file_size fullFilePath;;
    let resized := resize outShaderData fileSize in
    r <- ifstream_read file resized fileSize;;
    let '(file', data) := r in
    ret (if good file' then S_OK else E_FAIL, data)
  else
    ret (E_FAIL, outShaderData).

(** [for (int32_t i = first; ...; ++i)] over [count] iterations. *)
Fixpoint for_range (first : Z) (count : nat) (body : Z -> M unit) : M unit :=
  match count with
  | O => ret tt
  | S n => body first;; for_range (first + 1) n body
  end.

(** Modelled from the spec: [fastdx::runMainLoop] is defined in
    [fastdx/fastdx.h], which is not among the sources.  The spec describes
    it as the main message loop that repeats
    "acquire frame, record commands, submit, present, synchronize", that is,
    calls the [draw] callback once per frame; [frames] is the number of
    frames before the window is closed. *)
Fixpoint runMainLoop (frames : nat) (draw : M unit) : M unit :=
  match frames with
  | O => ret tt
  | S n => draw;; runMainLoop n draw
  end.

(** ** [src/samples/tiny/main.cpp] *)
Module Tiny.

Definition kClearColor : list float32 := [f_0_0; f_0_2; f_0_4; f_1_0].

Definition initializeD3d : M unit :=
  (* Create a device and queue to dispatch command lists *)
  d <- create KDevice;; modG (set_device d);;
  q <- createCommandQueue;; modG (set_commandQueue q);;
  (* Create a triple frame buffer swap chain for window *)
  sc <- createSwapChainForHwnd;; modG (set_swapChain sc);;
  (* Create a heap of descriptors, then fill it with render targets *)
  heap <- create KDescriptorHeap;; modG (set_swapChainRtvHeap heap);;
  rts <- createRenderTargetViews kFrameCount;; modG (set_renderTargets rts);;
  (* Create one command allocator per frame buffer *)
  for_range 0 (Z.to_nat kFrameCount) (fun i =>
    a <- create KCommandAllocator;;
    allocators <- getG commandAllocators;;
    allocators' <- of_option (upd_z allocators i a);;
    modG (set_commandAllocators allocators'));;
  (* Single command list will reuse all allocators *)
  allocators <- getG commandAllocators;;
  a0 <- of_option (nth_z allocators 0);;
  cl <- createCommandList a0;; modG (set_commandList cl);;
  commandList_Close;;
  (* Fence to wait for a completed frame to reuse *)
  c <- getG swapFenceCounter;;
  modG (set_swapFenceCounter (wrap64 (c + 1)));;
  f <- createFence c;; modG (set_swapFence f);;
  e <- CreateEvent;; modG (set_fenceEvent e);;
  (* Read VS and PS *)
  vs <- getG vertexShader;;
  r <- readShader "simple_vs.cso" vs;; modG (set_vertexShader (snd r));;
  ps <- getG pixelShader;;
  r <- readShader "simple_ps.cso" ps;; modG (set_pixelShader (snd r));;
  (* Create a root signature for shaders, then a pipeline state *)
  rs <- create KRootSignature;; modG (set_pipelineRootSignature rs);;
  pso <- create KPipelineState;; modG (set_pipelineState pso).

Definition draw : M unit :=
  rtvStart <- getW rtvHeapStart;;
  heapDescriptorSize <- getW rtvIncrement;;
  fi <- getG frameIndex;;
  let rtvHandle := wrap64 (rtvStart + wrap64 fi * heapDescriptorSize) in
  rts <- getG renderTargets;;
  pResource <- of_option (nth_z rts fi);;
  (* Get and reset allocator for current frame, then point command list to it *)
  allocators <- getG commandAllocators;;
  commandAllocator <- of_option (nth_z allocators fi);;
  commandAllocator_Reset commandAllocator;;
  commandList_Reset commandAllocator;;
  (* Present->RenderTarget barrier *)
  ResourceBarrier pResource STATE_PRESENT STATE_RENDER_TARGET;;
  pso <- getG pipelineState;;
  SetPipelineState pso;;
  OMSetRenderTargets rtvHandle None;;
  ClearRenderTargetView rtvHandle kClearColor;;
  (* RenderTarget->Present barrier *)
  ResourceBarrier pResource STATE_RENDER_TARGET STATE_PRESENT;;
  commandList_Close;;
  (* Dispatch command list and present *)
  ExecuteCommandLists;;
  Present 1 0;;
  (* Queue always signal increasing counter values *)
  fence <- getG swapFence;;
  c <- getG swapFenceCounter;;
  Signal fence c;;
  waits <- getG swapFenceWaitValue;;
  waits' <- of_option (upd_z waits fi c);;
  modG (set_swapFenceWaitValue waits');;
  modG (set_swapFenceCounter (wrap64 (c + 1)));;
  (* Wait if next frame not ready *)
  b <- GetCurrentBackBufferIndex;;
  let nextFrameIndex := int32_of_uint32 b in
  completed <- GetCompletedValue fence;;
  waits <- getG swapFenceWaitValue;;
  target <- of_option (nth_z waits nextFrameIndex);;
  (if completed <? target then
     event <- getG fenceEvent;;
     SetEventOnCompletion fence target event;;
     WaitForSingleObjectEx event
   else ret tt);;
  modG (set_frameIndex nextFrameIndex).

Definition WinMain (frames : nat) : M unit :=
  initializeD3d;;
  runMainLoop frames draw.

End Tiny.

(** ** [samples/triangle/triangle.cpp] *)
Module Triangle.

(** [kClearDepth = { DXGI_FORMAT_D32_FLOAT, {1.0f, 0} }] *)
Definition kClearDepth_Depth : float32 := f_1_0.
Definition kClearDepth_Stencil : Z := 0.
(** [kClearRenderTarget = { kFrameFormat, { 0.0f, 0.2f, 0.4f, 1.0f } }] *)
Definition kClearRenderTarget_Color : list float32 :=
  [f_0_0; f_0_2; f_0_4; f_1_0].

Definition initializeD3d : M unit :=
  (* Create a device and queue to dispatch command lists *)
  d <- create KDevice;; modG (set_device d);;
  q <- createCommandQueue;; modG (set_commandQueue q);;
  (* Create a triple frame buffer swap chain for window *)
  sc <- createSwapChainForHwnd;; modG (set_swapChain sc);;
  (* Create a heap of descriptors, then fill it with render targets *)
  heap <- create KDescriptorHeap;; modG (set_swapChainRtvHeap heap);;
  rts <- createRenderTargetViews kFrameCount;; modG (set_renderTargets rts);;
  (* Create depth stencil resource *)
  ds <- create KResource;; modG (set_depthStencilTarget ds);;
  (* Create heap descriptor with depth stencil desc *)
  dsHeap <- create KDescriptorHeap;; modG (set_depthStencilViewHeap dsHeap);;
  dsv <- getW dsvHeapStart;;
  emit (EvCreateDepthStencilView ds dsv);;
  (* Create one command allocator per frame buffer *)
  for_range 0 (Z.to_nat kFrameCount) (fun i =>
    a <- create KCommandAllocator;;
    allocators <- getG commandAllocators;;
    allocators' <- of_option (upd_z allocators i a);;
    modG (set_commandAllocators allocators'));;
  (* Single command list will reuse all allocators *)
  allocators <- getG commandAllocators;;
  a0 <- of_option (nth_z allocators 0);;
  cl <- createCommandList a0;; modG (set_commandList cl);;
  commandList_Close;;
  (* Fence to wait for a completed frame to reuse *)
  c <- getG swapFenceCounter;;
  modG (set_swapFenceCounter (wrap64 (c + 1)));;
  f <- createFence c;; modG (set_swapFence f);;
  e <- CreateEvent;; modG (set_fenceEvent e);;
  (* Read VS and PS *)
  vs <- getG vertexShader;;
  r <- readShader "simple_vs.cso" vs;; modG (set_vertexShader (snd r));;
  ps <- getG pixelShader;;
  r <- readShader "simple_ps.cso" ps;; modG (set_pixelShader (snd r));;
  (* Create a root signature for shaders, then a pipeline state *)
  rs <- create KRootSignature;; modG (set_pipelineRootSignature rs);;
  pso <- create KPipelineState;; modG (set_pipelineState pso).

Definition waitGpu (forceWait : bool) : M unit :=
  (* Queue always signal increasing counter values *)
  fence <- getG swapFence;;
  c <- getG swapFenceCounter;;
  Signal fence c;;
  fi <- getG frameIndex;;
  waits <- getG swapFenceWaitValue;;
  waits' <- of_option (upd_z waits fi c);;
  modG (set_swapFenceWaitValue waits');;
  modG (set_swapFenceCounter (wrap64 (c + 1)));;
  (* Wait if next frame not ready *)
  b <- GetCurrentBackBufferIndex;;
  let nextFrameIndex := int32_of_uint32 b in
  completed <- GetCompletedValue fence;;
  waits <- getG swapFenceWaitValue;;
  target <- of_option (nth_z waits nextFrameIndex);;
  (if (completed <? target) || forceWait then
     event <- getG fenceEvent;;
     SetEventOnCompletion fence target event;;
     WaitForSingleObjectEx event
   else ret tt);;
  modG (set_frameIndex nextFrameIndex).

Definition draw : M unit :=
  rtvHandle <- getW rtvHeapStart;;
  dsvHandle <- getW dsvHeapStart;;
  heapDescriptorSize <- getW rtvIncrement;;
  fi <- getG frameIndex;;
  let frameRtvHandle := wrap64 (rtvHandle + wrap64 fi * heapDescriptorSize) in
  (* Get and reset allocator for current frame, then point command list to it *)
  allocators <- getG commandAllocators;;
  commandAllocator <- of_option (nth_z allocators fi);;
  commandAllocator_Reset commandAllocator;;
  commandList_Reset commandAllocator;;
  (* Present->RenderTarget barrier *)
  rts <- getG renderTargets;;
  pResource <- of_option (nth_z rts fi);;
  ResourceBarrier pResource STATE_PRESENT STATE_RENDER_TARGET;;
  pso <- getG pipelineState;;
  SetPipelineState pso;;
  OMSetRenderTargets frameRtvHandle (Some dsvHandle);;
  ClearRenderTargetView frameRtvHandle kClearRenderTarget_Color;;
  ClearDepthStencilView dsvHandle kClearDepth_Depth kClearDepth_Stencil;;
  (* RenderTarget->Present barrier *)
  ResourceBarrier pResource STATE_RENDER_TARGET STATE_PRESENT;;
  commandList_Close;;
  (* Dispatch command list and present *)
  ExecuteCommandLists;;
  Present 1 0;;
  waitGpu false.

(** The handler installed as [fastdx::onWindowDestroy]. *)
Definition onWindowDestroy : M unit := waitGpu true.

(** [WinMain] installs the handler and initialises, then runs the main
    loop.  Modelled from the spec: [fastdx], which is not among the sources,
    calls the window-destroy handler when the window is destroyed, which is
    what ends the main loop. *)
Definition WinMain (frames : nat) : M unit :=
  initializeD3d;;
  runMainLoop frames draw;;
  onWindowDestroy.

End Triangle.

(** ** Definitions used to state the properties *)

(** The path [readShader] opens for [filePath]. *)
Definition shader_path (modulePath filePath : string) : string :=
  path_append (parent_path (module_file_name 1024 modulePath)) filePath.

(** The paths a trace opens, successfully or not. *)
Fixpoint opened (t : list Event) : list string :=
  match t with
  | [] => []
  | EvOpen p _ :: t' => p :: opened t'
  | _ :: t' => opened t'
  end.

(** What one [readShader] comes to, with the buffer [out], where the
    openable files are [fs] and the module path is [mp]: its result and the
    calls it makes, or nothing when [file_size] throws. *)
Definition readShader_result (fs : list (string * File)) (mp : string)
  (filePath : string) (out : list byte)
  : option ((HRESULT * list byte) * list Event) :=
  let p := shader_path mp filePath in
  let name := module_file_name 1024 mp in
  match lookup_file fs p with
  | None =>
      Some ((E_FAIL, out), [EvGetModuleFileName 1024 name; EvOpen p false])
  | Some f =>
      match reported f with
      | None => None
      | Some size =>
          let got := firstn size (delivered f) in
          Some ((if Nat.eqb (List.length got) size then S_OK else E_FAIL,
                 got ++ skipn (List.length got) (resize out size)),
                [EvGetModuleFileName 1024 name; EvOpen p true;
                 EvFileSize p size; EvRead size (List.length got)])
      end
  end.

(** What a shader vector, empty before, holds once [readShader] has
    returned. *)
Definition loaded (w : World) (filePath : string) : list byte :=
  match readShader_result (files w) (modulePath w) filePath [] with
  | Some (r, _) => snd r
  | None => []
  end.

(** The world once a frame's command list, recorded in [a], has been
    submitted and presented, the swap chain moving to buffer [b]. *)
Definition submitted (a : Handle) (b : Z) (ps : list Z) (w : World) : World :=
  set_backBuffer b
    (set_gpu (mkGpu (fenceValue (gpu w))
                (gpuQueue (gpu w) ++ [QExec a; QPresent]))
       (set_presentOracle ps (set_listAllocator a w))).

(** The descriptor of the render target of frame [fi]. *)
Definition frame_rtv (w : World) (fi : Z) : Z :=
  wrap64 (rtvHeapStart w + wrap64 fi * rtvIncrement w).

(** The calls that record a frame's command list, in [tiny] and in
    [triangle]; [a] is the frame's allocator, [res] its render target. *)
Definition tiny_record (s : St) (a res : Handle) : list Event :=
  let g := globals s in
  let rtv := frame_rtv (world s) (frameIndex g) in
  [EvAllocatorReset a; EvListReset (commandList g) a;
   EvResourceBarrier res STATE_PRESENT STATE_RENDER_TARGET;
   EvSetPipelineState (pipelineState g);
   EvOMSetRenderTargets rtv None;
   EvClearRenderTargetView rtv Tiny.kClearColor;
   EvResourceBarrier res STATE_RENDER_TARGET STATE_PRESENT;
   EvListClose (commandList g)].

Definition triangle_record (s : St) (a res : Handle) : list Event :=
  let g := globals s in
  let rtv := frame_rtv (world s) (frameIndex g) in
  let dsv := dsvHeapStart (world s) in
  [EvAllocatorReset a; EvListReset (commandList g) a;
   EvResourceBarrier res STATE_PRESENT STATE_RENDER_TARGET;
   EvSetPipelineState (pipelineState g);
   EvOMSetRenderTargets rtv (Some dsv);
   EvClearRenderTargetView rtv Triangle.kClearRenderTarget_Color;
   EvClearDepthStencilView dsv Triangle.kClearDepth_Depth
     Triangle.kClearDepth_Stencil;
   EvResourceBarrier res STATE_RENDER_TARGET STATE_PRESENT;
   EvListClose (commandList g)].

(** The calls that submit and present. *)
Definition submit_present (g : Globals) : list Event :=
  [EvExecuteCommandLists (commandQueue g) (commandList g);
   EvPresent (swapChain g) 1 0].

(** The first three calls of the fence logic. *)
Definition polled (g : Globals) (b completed : Z) : list Event :=
  [EvSignal (commandQueue g) (swapFence g) (swapFenceCounter g);
   EvGetCurrentBackBufferIndex (swapChain g) b;
   EvGetCompletedValue (swapFence g) completed].

(** Its two last calls, when it blocks. *)
Definition blocked (g : Globals) (target : Z) : list Event :=
  [EvSetEventOnCompletion (swapFence g) target (fenceEvent g);
   EvWaitForSingleObjectEx (fenceEvent g)].

(** The globals after the fence logic. *)
Definition synced (waits' : list Z) (next : Z) (g : Globals) : Globals :=
  set_frameIndex next
    (set_swapFenceCounter (wrap64 (swapFenceCounter g + 1))
       (set_swapFenceWaitValue waits' g)).

(** The fence logic in one piece: what [waitGpu], and the end of [tiny]'s
    [draw], compute from a state. *)
Definition sync_result (forceWait : bool) (s : St)
  : option (unit * St * list Event) :=
  let g := globals s in
  let w := world s in
  let c := swapFenceCounter g in
  match upd_z (swapFenceWaitValue g) (frameIndex g) c, gpuOracle w with
  | Some waits', k :: ks =>
      let next := int32_of_uint32 (backBuffer w) in
      match nth_z waits' next with
      | Some target =>
          let g1 := gpu_run k (mkGpu (fenceValue (gpu w))
                                 (gpuQueue (gpu w) ++ [QSignal c])) in
          let head := polled g (backBuffer w) (fenceValue g1) in
          if (fenceValue g1 <? target) || forceWait then
            match gpu_until target g1 with
            | Some g2 =>
                Some (tt,
                      mkSt (synced waits' next g)
                        (set_eventTarget None
                           (set_gpu g2 (set_gpuOracle ks w))),
                      head ++ blocked g target)
            | None => None
            end
          else
            Some (tt, mkSt (synced waits' next g)
                        (set_gpu g1 (set_gpuOracle ks w)), head)
      | None => None
      end
  | _, _ => None
  end.

(** A frame in one piece. *)
Definition frame_result (record : St -> Handle -> Handle -> list Event)
  (s : St) : option (unit * St * list Event) :=
  let g := globals s in
  let w := world s in
  match nth_z (commandAllocators g) (frameIndex g),
        nth_z (renderTargets g) (frameIndex g), presentOracle w with
  | Some a, Some res, b :: ps =>
      match sync_result false (mkSt g (submitted a b ps w)) with
      | Some (u, s', t) =>
          Some (u, s', record s a res ++ submit_present g ++ t)
      | None => None
      end
  | _, _, _ => None
  end.

(** ** The invariants of the render loop *)

(** The fence values still to be signalled by a queue, oldest first. *)
Fixpoint signals (q : list QItem) : list Z :=
  match q with
  | [] => []
  | QSignal v :: q' => v :: signals q'
  | _ :: q' => signals q'
  end.

(** [n] consecutive integers from [a]. *)
Fixpoint zseq (a : Z) (n : nat) : list Z :=
  match n with
  | O => []
  | S n' => a :: zseq (a + 1) n'
  end.

(** The GPU still has work recorded in allocator [a] before it. *)
Definition in_flight (a : Handle) (g : Gpu) : Prop :=
  In (QExec a) (gpuQueue g).

(** Every command list of allocator [a] in the queue is followed by the
    signal of [v]. *)
Fixpoint exec_guarded (a : Handle) (v : Z) (q : list QItem) : Prop :=
  match q with
  | [] => True
  | QExec a' :: q' => (a' = a -> In (QSignal v) q') /\ exec_guarded a v q'
  | _ :: q' => exec_guarded a v q'
  end.

(** The queue's signals are the values from the fence's up to the
    counter's, without a gap. *)
Definition signals_in_sequence (counter : Z) (g : Gpu) : Prop :=
  exists n, signals (gpuQueue g) = zseq (fenceValue g + 1) n
            /\ fenceValue g + 1 + Z.of_nat n = counter.

(** The fence has reached the value recorded for the current frame. *)
Definition Ready (s : St) : Prop :=
  exists v, nth_z (swapFenceWaitValue (globals s)) (frameIndex (globals s))
            = Some v
            /\ v <= fenceValue (gpu (world s)).

(** The state between two frames, as long as the counter has not wrapped. *)
Record Inv (s : St) : Prop := mkInv {
  inv_allocators : NoDup (commandAllocators (globals s));
  inv_allocators_len : List.length (commandAllocators (globals s)) = 3%nat;
  inv_targets_len : List.length (renderTargets (globals s)) = 3%nat;
  inv_waits_len : List.length (swapFenceWaitValue (globals s)) = 3%nat;
  inv_fence : 0 <= fenceValue (gpu (world s));
  inv_counter : swapFenceCounter (globals s) < 2 ^ 64;
  inv_signals :
    signals_in_sequence (swapFenceCounter (globals s)) (gpu (world s));
  inv_waits :
    Forall (fun v => 0 <= v < swapFenceCounter (globals s))
      (swapFenceWaitValue (globals s));
  inv_guarded : forall i a v,
    nth_z (commandAllocators (globals s)) i = Some a ->
    nth_z (swapFenceWaitValue (globals s)) i = Some v ->
    exec_guarded a v (gpuQueue (gpu (world s)));
  inv_current : frameIndex (globals s) = int32_of_uint32 (backBuffer (world s));
  inv_ready : Ready s
}.

(** ** Reading traces *)

Definition is_fence_creation (e : Event) : bool :=
  match e with EvCreate (KFence _) _ => true | _ => false end.

Definition is_event_creation (e : Event) : bool :=
  match e with EvCreate KOsEvent _ => true | _ => false end.

(** A synchronisation call is made on fence [f] and on event [e]. *)
Definition sync_uses (f e : Handle) (ev : Event) : Prop :=
  match ev with
  | EvSignal _ f' _ => f' = f
  | EvGetCompletedValue f' _ => f' = f
  | EvSetEventOnCompletion f' _ e' => f' = f /\ e' = e
  | EvWaitForSingleObjectEx e' => e' = e
  | _ => True
  end.

(** The values a trace signals on the command queue, in order. *)
Fixpoint signalled (t : list Event) : list Z :=
  match t with
  | [] => []
  | EvSignal _ _ v :: t' => v :: signalled t'
  | _ :: t' => signalled t'
  end.

(** What [initializeD3d] leaves behind, started in world [w] with the
    globals of a fresh process. *)
Record InitOk (w : World) (s : St) (t : list Event) : Prop := mkInitOk {
  init_inv : Inv s;
  init_counter : swapFenceCounter (globals s) = 1;
  init_frame : frameIndex (globals s) = 0;
  init_waits : swapFenceWaitValue (globals s) = [0; 0; 0];
  init_gpu : gpu (world s) = mkGpu 0 [];
  init_backBuffer : backBuffer (world s) = 0;
  init_present : presentOracle (world s) = presentOracle w;
  init_poll : gpuOracle (world s) = gpuOracle w;
  init_vs : vertexShader (globals s) = loaded w "simple_vs.cso";
  init_ps : pixelShader (globals s) = loaded w "simple_ps.cso";
  init_opened :
    opened t = [shader_path (modulePath w) "simple_vs.cso";
                shader_path (modulePath w) "simple_ps.cso"];
  init_fence :
    filter is_fence_creation t = [EvCreate (KFence 0) (swapFence (globals s))];
  init_event :
    filter is_event_creation t = [EvCreate KOsEvent (fenceEvent (globals s))];
  init_sync : signalled t = []
                /\ Forall (sync_uses (swapFence (globals s))
                             (fenceEvent (globals s))) t
}.

(** ** The render loop *)

(** After initialisation in world [w] and [n] frames the sample is in state
    [s], having made the calls [t]. *)
Definition after (init draw : M unit) (w : World) (n : nat) (s : St)
  (t : list Event) : Prop :=
  (init;; runMainLoop n draw) (mkSt globals0 w) = Some (tt, s, t).

(** What [readShader] finds when it opens [filePath]: the file, or nothing
    when the file cannot be opened. *)
Definition opens (w : World) (filePath : string) : option File :=
  lookup_file (files w) (shader_path (modulePath w) filePath).

(** ** Concrete worlds, for examples *)

Definition demo_files : list (string * File) :=
  [("C:\demo\simple_vs.cso"%string, file_at_rest [x44; x58; x42; x43]);
   ("C:\demo\simple_ps.cso"%string, file_at_rest [x44; x58])].

(** The executable is [C:\demo\tiny.exe]; the swap chain rotates its three
    buffers; the GPU retires [k] items before each poll. *)
Definition demo_world (present : list Z) (polls : list nat) : World :=
  mkWorld "C:\demo\tiny.exe" demo_files 4096 32 8192 1 0 (mkGpu 0 []) 0 None
    present polls.

(** A world without shader files. *)
Definition bare_world : World :=
  mkWorld "C:\demo\tiny.exe" [] 4096 32 8192 1 0 (mkGpu 0 []) 0 None [] [].





(** A drive path: the drive and the names below it, each after a
    separator. *)
Fixpoint names_path (names : list string) : string :=
  match names with
  | [] => EmptyString
  | n :: names' => String separator (n ++ names_path names')
  end.

Definition drive_path (drive : ascii) (names : list string) : string :=
  String drive (String colon (names_path names)).

(** A name of 250 characters, and an executable five directories of that
    name deep: a module path of 1266 characters. *)
Definition long_name : string := string_of_list_ascii (repeat "a"%char 250).

Definition deep_module_path : string :=
  drive_path "C" (repeat long_name 5 ++ ["tiny.exe"%string]).

Definition deep_world : World :=
  mkWorld deep_module_path [] 4096 32 8192 1 0 (mkGpu 0 []) 0 None [] [].

(** A result with calls made before it. *)
Definition prepend {A} (t : list Event) (r : option (A * St * list Event))
  : option (A * St * list Event) :=
  match r with
  | Some (a, s, t') => Some (a, s, t ++ t')
  | None => None
  end.

(** ** The claims' vocabulary *)

(** The per-frame fence logic, step by step: run from [s] it makes the
    calls [t] and ends in [s'].  [forced] is [waitGpu]'s argument. *)
Definition fence_logic (forced : bool) (s : St) (t : list Event) (s' : St)
  : Prop :=
  let g := globals s in
  let b := backBuffer (world s) in
  exists waits' completed target,
    (* the fence is signalled with the counter, which is recorded for the
       current frame and incremented *)
    upd_z (swapFenceWaitValue g) (frameIndex g) (swapFenceCounter g)
    = Some waits'
    /\ swapFenceWaitValue (globals s') = waits'
    /\ swapFenceCounter (globals s') = wrap64 (swapFenceCounter g + 1)
    (* the next frame index comes from the swap chain *)
    /\ nth_z waits' (int32_of_uint32 b) = Some target
    (* behind the value recorded for the next frame, the thread registers
       the event and blocks *)
    /\ t = polled g b completed
           ++ (if (completed <? target) || forced then blocked g target
               else [])
    /\ ((completed <? target) || forced = true ->
        target <= fenceValue (gpu (world s')))
    (* the next frame becomes the current one *)
    /\ frameIndex (globals s') = int32_of_uint32 b.

(** The phases of a frame. *)
Inductive Phase :=
| Setup | Record_commands | Submit | Present_frame | Synchronize.

Definition phase_of (e : Event) : Phase :=
  match e with
  | EvAllocatorReset _ | EvListReset _ _ | EvResourceBarrier _ _ _
  | EvSetPipelineState _ | EvOMSetRenderTargets _ _
  | EvClearRenderTargetView _ _ | EvClearDepthStencilView _ _ _
  | EvListClose _ => Record_commands
  | EvExecuteCommandLists _ _ => Submit
  | EvPresent _ _ _ => Present_frame
  | EvSignal _ _ _ | EvGetCurrentBackBufferIndex _ _
  | EvGetCompletedValue _ _ | EvSetEventOnCompletion _ _ _
  | EvWaitForSingleObjectEx _ => Synchronize
  | _ => Setup
  end.

Definition Phase_eqb (p q : Phase) : bool :=
  match p, q with
  | Setup, Setup | Record_commands, Record_commands | Submit, Submit
  | Present_frame, Present_frame | Synchronize, Synchronize => true
  | _, _ => false
  end.

(** The phases a trace goes through: a run of calls of one phase counts
    once. *)
Fixpoint phases (t : list Event) : list Phase :=
  match t with
  | [] => []
  | e :: t' =>
      match phases t' with
      | p :: ps => if Phase_eqb (phase_of e) p then p :: ps
                   else phase_of e :: p :: ps
      | [] => [phase_of e]
      end
  end.




(** The allocators a trace resets. *)
Fixpoint resets (t : list Event) : list Handle :=
  match t with
  | [] => []
  | EvAllocatorReset a :: t' => a :: resets t'
  | _ :: t' => resets t'
  end.

(** A computation's final state and trace; the start state and no calls
    when it is undefined. *)
Definition run_from (m : M unit) (s : St) : St * list Event :=
  match m s with
  | Some (_, s', t) => (s', t)
  | None => (s, [])
  end.


Definition triangle_start (present : list Z) (polls : list nat) : St :=
  fst (run_from Triangle.initializeD3d
         (mkSt globals0 (demo_world present polls))).

(** The calls that record a frame reset the frame's allocator first, and
    neither signal, create nor wait. *)
Definition quiet_record (record : St -> Handle -> Handle -> list Event)
  : Prop :=
  forall s a res,
    hd_error (record s a res) = Some (EvAllocatorReset a)
    /\ resets (record s a res) = [a]
    /\ signalled (record s a res) = []
    /\ filter is_fence_creation (record s a res) = []
    /\ filter is_event_creation (record s a res) = []
    /\ forall f e, Forall (sync_uses f e) (record s a res).


(** The state [tiny] and [triangle] are in after [n] frames in
    [demo_world], and the calls made. *)
Definition tiny_after (present : list Z) (polls : list nat) (n : nat)
  : St * list Event :=
  run_from (Tiny.initializeD3d;; runMainLoop n Tiny.draw)
    (mkSt globals0 (demo_world present polls)).

Definition triangle_after (present : list Z) (polls : list nat) (n : nat)
  : St * list Event :=
  run_from (Triangle.initializeD3d;; runMainLoop n Triangle.draw)
    (mkSt globals0 (demo_world present polls)).


(** The allocators of the command lists in a queue, oldest first: the
    frames in flight. *)
Fixpoint execs (q : list QItem) : list Handle :=
  match q with
  | [] => []
  | QExec a :: q' => a :: execs q'
  | _ :: q' => execs q'
  end.

(** * Properties *)

(** ** The monad *)

Lemma bind_assoc {A B C} (m : M A) (f : A -> M B) (g : B -> M C) s :
  bind (bind m f) g s = bind m (fun x => bind (f x) g) s.
Proof.
  unfold bind. destruct (m s) as [[[a s1] t1]|]; [|reflexivity].
  destruct (f a s1) as [[[b s2] t2]|]; [|reflexivity].
  destruct (g b s2) as [[[c s3] t3]|]; [|reflexivity].
  now rewrite app_assoc.
Qed.

Lemma bind_ext {A B} (m : M A) (f g : A -> M B) s :
  (forall a s', f a s' = g a s') -> bind m f s = bind m g s.
Proof.
  intros H. unfold bind. destruct (m s) as [[[a s1] t1]|]; [|reflexivity].
  now rewrite H.
Qed.

Lemma bind_inv {A B} (m : M A) (f : A -> M B) s b s2 t :
  bind m f s = Some (b, s2, t) ->
  exists a s1 t1 t2,
    m s = Some (a, s1, t1) /\ f a s1 = Some (b, s2, t2) /\ t = t1 ++ t2.
Proof.
  unfold bind. destruct (m s) as [[[a s1] t1]|]; [|discriminate].
  destruct (f a s1) as [[[b' s2'] t2]|] eqn:E; [|discriminate].
  intros [= <- <- <-]. now exists a, s1, t1, t2.
Qed.

Lemma bind_intro {A B} (m : M A) (f : A -> M B) s a s1 t1 b s2 t2 :
  m s = Some (a, s1, t1) -> f a s1 = Some (b, s2, t2) ->
  bind m f s = Some (b, s2, t1 ++ t2).
Proof. intros H1 H2. unfold bind. now rewrite H1, H2. Qed.

Lemma bind_ret_l {A B} (a : A) (f : A -> M B) s : bind (ret a) f s = f a s.
Proof. unfold bind, ret. now destruct (f a s) as [[[b s2] t2]|]. Qed.

Lemma bind_ret_r (m : M unit) s : bind m (fun _ => ret tt) s = m s.
Proof.
  unfold bind, ret. destruct (m s) as [[[[] s1] t1]|]; [|reflexivity].
  now rewrite app_nil_r.
Qed.

(** ** [readShader] *)

Lemma firstn_length_all {A} (l : list A) : firstn (List.length l) l = l.
Proof. apply firstn_all. Qed.

Lemma resize_length v n : List.length (resize v n) = n.
Proof.
  unfold resize. rewrite length_app, repeat_length, length_firstn. lia.
Qed.

(** [readShader], run. *)
Lemma readShader_eq filePath out s :
  readShader filePath out s =
  match readShader_result (files (world s)) (modulePath (world s)) filePath out
  with
  | Some (r, t) => Some (r, s, t)
  | None => None
  end.
Proof.
  destruct s as [g w]. unfold readShader, readShader_result, shader_path.
  unfold GetModuleFileName, ifstream_open, file_size, ifstream_read.
  unfold bind, getW, emit, ret, undefined. cbn.
  destruct (lookup_file (files w) _) as [f|] eqn:E; cbn; [|reflexivity].
  rewrite E. destruct (reported f) as [size|]; cbn; [|reflexivity].
  assert (H' : Nat.leb (List.length (firstn size (delivered f)))
                 (List.length (resize out size)) = true).
  { apply Nat.leb_le. rewrite resize_length, length_firstn. lia. }
  rewrite H'. reflexivity.
Qed.

(** ** The fence logic and the frame, in one piece *)

Ltac run_monad :=
  cbv [bind ret emit getG getW modG modW of_option undefined
       create create_n createCommandQueue createSwapChainForHwnd
       createRenderTargetViews createCommandList createFence CreateEvent
       enqueue commandAllocator_Reset commandList_Reset ResourceBarrier
       SetPipelineState OMSetRenderTargets ClearRenderTargetView
       ClearDepthStencilView commandList_Close ExecuteCommandLists Present
       Signal GetCurrentBackBufferIndex GetCompletedValue
       SetEventOnCompletion WaitForSingleObjectEx for_range].

Lemma waitGpu_eq forceWait s :
  Triangle.waitGpu forceWait s = sync_result forceWait s.
Proof.
  destruct s as [g w]. unfold Triangle.waitGpu, sync_result.
  run_monad. cbn.
  destruct (upd_z _ _ _) as [waits'|]; [|reflexivity]. cbn.
  destruct (gpuOracle w) as [|k ks]; [reflexivity|]. cbn.
  destruct (nth_z waits' _) as [target|]; [|reflexivity]. cbn.
  destruct (_ || _); cbn; [|reflexivity].
  destruct (gpu_until _ _); reflexivity.
Qed.

#[local] Opaque Triangle.waitGpu.

Lemma triangle_draw_eq s : Triangle.draw s = frame_result triangle_record s.
Proof.
  destruct s as [g w]. unfold Triangle.draw, frame_result.
  run_monad. cbn.
  destruct (nth_z (commandAllocators g) _) as [a|]; [|reflexivity]. cbn.
  destruct (nth_z (renderTargets g) _) as [res|]; [|reflexivity]. cbn.
  destruct (presentOracle w) as [|b ps]; [reflexivity|]. cbn.
  unfold submitted. cbn. rewrite <- app_assoc. cbn [app].
  rewrite waitGpu_eq.
  destruct (sync_result _ _) as [[[u s'] t]|]; reflexivity.
Qed.

#[local] Transparent Triangle.waitGpu.

Lemma tiny_draw_eq s : Tiny.draw s = frame_result tiny_record s.
Proof.
  destruct s as [g w]. unfold Tiny.draw, frame_result, sync_result.
  run_monad. cbn.
  destruct (nth_z (renderTargets g) _) as [res|];
    [|now destruct (nth_z (commandAllocators g) _)]. cbn.
  destruct (nth_z (commandAllocators g) _) as [a|]; [|reflexivity]. cbn.
  destruct (presentOracle w) as [|b ps]; [reflexivity|]. cbn.
  rewrite <- !app_assoc. cbn [app].
  destruct (upd_z _ _ _) as [waits'|]; [|reflexivity]. cbn.
  destruct (gpuOracle w) as [|k ks]; [reflexivity|]. cbn.
  destruct (nth_z waits' _) as [target|]; [|reflexivity]. cbn.
  rewrite orb_false_r.
  destruct (_ <? _); cbn; [|reflexivity].
  destruct (gpu_until _ _); reflexivity.
Qed.

(** ** The GPU model *)

Section GpuFacts.

Lemma signals_app q1 q2 : signals (q1 ++ q2) = signals q1 ++ signals q2.
Proof.
  induction q1 as [|[a| |v] q1 IH]; cbn; [reflexivity|assumption|assumption|].
  now rewrite IH.
Qed.

Lemma zseq_snoc a n : zseq a (S n) = zseq a n ++ [a + Z.of_nat n].
Proof.
  revert a. induction n as [|n IH]; intros a.
  - cbn. now rewrite Z.add_0_r.
  - change (zseq a (S (S n))) with (a :: zseq (a + 1) (S n)).
    rewrite IH. cbn [zseq app]. do 3 f_equal. lia.
Qed.

Lemma in_zseq a n v : In v (zseq a n) <-> a <= v < a + Z.of_nat n.
Proof.
  revert a. induction n as [|n IH]; intros a; cbn [zseq In].
  - split; [tauto|lia].
  - rewrite IH. lia.
Qed.

Lemma in_signals v q : In (QSignal v) q <-> In v (signals q).
Proof.
  induction q as [|[a| |x] q IH]; cbn [signals In].
  - tauto.
  - rewrite <- IH. split; [intros [H|H]; [discriminate|assumption]|tauto].
  - rewrite <- IH. split; [intros [H|H]; [discriminate|assumption]|tauto].
  - rewrite <- IH. split; intros [H|H]; try tauto.
    + injection H as ->. now left.
    + subst. now left.
Qed.

Lemma exec_guarded_absent a v q : ~ In (QExec a) q -> exec_guarded a v q.
Proof.
  induction q as [|[a'| |x] q IH]; cbn [exec_guarded In]; intros H.
  - exact I.
  - split; [|tauto]. intros ->. tauto.
  - apply IH. intros H'. apply H. now right.
  - apply IH. intros H'. apply H. now right.
Qed.

Lemma exec_guarded_app a v q1 q2 :
  exec_guarded a v q1 -> exec_guarded a v q2 -> exec_guarded a v (q1 ++ q2).
Proof.
  induction q1 as [|[a'| |x] q1 IH]; cbn [exec_guarded app]; try tauto.
  intros [H1 H2] H3. split; [|tauto].
  intros E. apply in_or_app. left. now apply H1.
Qed.

(** An allocator whose guarding signal is not in the queue has no work
    in the queue. *)
Lemma exec_guarded_idle a v q :
  exec_guarded a v q -> ~ In (QSignal v) q -> ~ In (QExec a) q.
Proof.
  induction q as [|[a'| |x] q IH]; cbn [exec_guarded In].
  - tauto.
  - intros [H1 H2] H3 [H4|H4].
    + injection H4 as ->. apply H3. right. now apply H1.
    + apply IH; tauto.
  - intros H1 H2 [H3|H3]; [discriminate|]. apply IH; tauto.
  - intros H1 H2 [H3|H3]; [discriminate|]. apply IH; tauto.
Qed.

Lemma exec_guarded_retire a v g :
  exec_guarded a v (gpuQueue g) -> exec_guarded a v (gpuQueue (gpu_retire g)).
Proof.
  unfold gpu_retire. destruct g as [fv [|[a'| |x] q]]; cbn; tauto.
Qed.

Lemma signals_in_sequence_retire c g :
  signals_in_sequence c g -> signals_in_sequence c (gpu_retire g).
Proof.
  unfold signals_in_sequence, gpu_retire.
  destruct g as [fv [|[a'| |x] q]]; cbn [gpuQueue fenceValue signals];
    try tauto.
  intros [[|n] [H1 H2]]; [discriminate|].
  cbn [zseq] in H1. injection H1 as -> H1.
  exists n. split; [assumption|lia].
Qed.

Lemma fence_retire_nonneg c g :
  signals_in_sequence c g -> 0 <= fenceValue g ->
  0 <= fenceValue (gpu_retire g).
Proof.
  unfold signals_in_sequence, gpu_retire.
  destruct g as [fv [|[a'| |x] q]]; cbn [gpuQueue fenceValue signals];
    try tauto.
  intros [[|n] [H1 H2]]; [discriminate|].
  cbn [zseq] in H1. injection H1 as -> H1. lia.
Qed.

(** Waiting is running the GPU for some number of steps. *)
Lemma gpu_until_run target g g' :
  gpu_until target g = Some g' ->
  target <= fenceValue g' /\ exists k, g' = gpu_run k g.
Proof.
  unfold gpu_until. destruct g as [fv q]. cbn [fenceValue gpuQueue].
  revert fv. induction q as [|it q IH]; intros fv; cbn [gpu_until_q].
  - destruct (target <=? fv) eqn:E; [|discriminate].
    intros [= <-]. split; [cbn; lia|]. now exists 0%nat.
  - destruct (target <=? fv) eqn:E.
    + intros [= <-]. split; [cbn; lia|]. now exists 0%nat.
    + destruct it as [a| |v]; intros H; apply IH in H as [H [k ->]];
        (split; [assumption|]); now exists (S k).
Qed.

(** With its signals in sequence, the queue brings the fence to any
    value below the counter: waiting for one returns. *)
Lemma gpu_until_returns c target g :
  signals_in_sequence c g -> target < c ->
  exists g', gpu_until target g = Some g'.
Proof.
  unfold gpu_until, signals_in_sequence. destruct g as [fv q].
  cbn [fenceValue gpuQueue].
  revert fv. induction q as [|it q IH]; intros fv [n [H1 H2]] Hc;
    cbn [gpu_until_q].
  - destruct n; [|discriminate]. cbn in H2.
    destruct (target <=? fv) eqn:E; [eauto|]. lia.
  - destruct (target <=? fv) eqn:E; [eauto|].
    destruct it as [a| |v]; cbn [signals] in H1.
    + apply IH; eauto.
    + apply IH; eauto.
    + destruct n; [discriminate|]. cbn [zseq] in H1.
      injection H1 as -> H1. apply IH; [|assumption].
      exists n. split; [assumption|lia].
Qed.

End GpuFacts.

Lemma exec_guarded_run a v k g :
  exec_guarded a v (gpuQueue g) -> exec_guarded a v (gpuQueue (gpu_run k g)).
Proof.
  revert g. induction k as [|k IH]; intros g H; cbn [gpu_run];
    [assumption|]. now apply IH, exec_guarded_retire.
Qed.

Lemma signals_in_sequence_run c k g :
  signals_in_sequence c g -> signals_in_sequence c (gpu_run k g).
Proof.
  revert g. induction k as [|k IH]; intros g H; cbn [gpu_run];
    [assumption|]. now apply IH, signals_in_sequence_retire.
Qed.

Lemma fence_run_nonneg c k g :
  signals_in_sequence c g -> 0 <= fenceValue g ->
  0 <= fenceValue (gpu_run k g).
Proof.
  revert g. induction k as [|k IH]; intros g H1 H2; cbn [gpu_run];
    [assumption|].
  apply IH; [now apply signals_in_sequence_retire|].
  now apply fence_retire_nonneg with c.
Qed.

Lemma gpu_run_add j k g : gpu_run j (gpu_run k g) = gpu_run (k + j) g.
Proof.
  revert g. induction k as [|k IH]; intros g; cbn [gpu_run Nat.add];
    [reflexivity|apply IH].
Qed.

(** ** Arrays *)

Lemma set_nth_spec {A} (l l' : list A) n v :
  set_nth l n v = Some l' ->
  (n < List.length l)%nat /\ List.length l' = List.length l
  /\ nth_error l' n = Some v
  /\ forall m, m <> n -> nth_error l' m = nth_error l m.
Proof.
  revert n l'. induction l as [|x l IH]; intros [|n] l'; cbn [set_nth];
    try discriminate.
  - intros [= <-]. cbn. repeat split; [lia|].
    intros [|m] Hm; [congruence|reflexivity].
  - destruct (set_nth l n v) as [t|] eqn:E; [|discriminate].
    intros [= <-]. destruct (IH _ _ E) as (H1 & H2 & H3 & H4).
    cbn. repeat split; [lia|lia|assumption|].
    intros [|m] Hm; [reflexivity|]. cbn. apply H4. lia.
Qed.

Lemma set_nth_Forall {A} (P : A -> Prop) (l l' : list A) n v :
  set_nth l n v = Some l' -> Forall P l -> P v -> Forall P l'.
Proof.
  revert n l'. induction l as [|x l IH]; intros [|n] l'; cbn [set_nth];
    try discriminate.
  - intros [= <-] H Hv. inversion H; subst. now constructor.
  - destruct (set_nth l n v) as [t|] eqn:E; [|discriminate].
    intros [= <-] H Hv. inversion H; subst. constructor; eauto.
Qed.

Lemma nth_z_range {A} (l : list A) i x :
  nth_z l i = Some x -> 0 <= i < Z.of_nat (List.length l).
Proof.
  unfold nth_z. destruct (i <? 0) eqn:E; [discriminate|].
  intros H. apply Z.ltb_ge in E.
  assert (Z.to_nat i < List.length l)%nat by
    (apply nth_error_Some; congruence).
  lia.
Qed.

Lemma nth_z_In {A} (l : list A) i x : nth_z l i = Some x -> In x l.
Proof.
  unfold nth_z. destruct (i <? 0); [discriminate|]. apply nth_error_In.
Qed.

Lemma nth_z_some {A} (l : list A) i :
  0 <= i < Z.of_nat (List.length l) -> exists x, nth_z l i = Some x.
Proof.
  intros H. unfold nth_z. destruct (i <? 0) eqn:E; [apply Z.ltb_lt in E; lia|].
  destruct (nth_error l (Z.to_nat i)) eqn:E'; [eauto|].
  apply nth_error_None in E'. lia.
Qed.

Lemma upd_z_spec {A} (l l' : list A) i v :
  upd_z l i v = Some l' ->
  0 <= i < Z.of_nat (List.length l) /\ List.length l' = List.length l
  /\ nth_z l' i = Some v
  /\ forall j, j <> i -> nth_z l' j = nth_z l j.
Proof.
  unfold upd_z, nth_z. destruct (i <? 0) eqn:E; [discriminate|].
  apply Z.ltb_ge in E. intros H.
  destruct (set_nth_spec _ _ _ _ H) as (H1 & H2 & H3 & H4).
  repeat split; [lia|lia|assumption|assumption|].
  intros j Hj. destruct (j <? 0) eqn:E'; [reflexivity|].
  apply Z.ltb_ge in E'. apply H4. lia.
Qed.

Lemma upd_z_some {A} (l : list A) i v :
  0 <= i < Z.of_nat (List.length l) -> exists l', upd_z l i v = Some l'.
Proof.
  intros H. unfold upd_z.
  destruct (i <? 0) eqn:E; [apply Z.ltb_lt in E; lia|].
  assert (Hn : (Z.to_nat i < List.length l)%nat) by lia.
  clear H E. revert Hn. generalize (Z.to_nat i) as n.
  induction l as [|x l IH]; intros [|n] Hn; cbn in *; try lia; eauto.
  destruct (IH n) as [t ->]; [lia|]. cbn. eauto.
Qed.

Lemma upd_z_Forall {A} (P : A -> Prop) (l l' : list A) i v :
  upd_z l i v = Some l' -> Forall P l -> P v -> Forall P l'.
Proof.
  unfold upd_z. destruct (i <? 0); [discriminate|]. apply set_nth_Forall.
Qed.

(** Two indices into a list without duplicates that give one element
    are one index. *)
Lemma nth_z_NoDup {A} (l : list A) i j x :
  NoDup l -> nth_z l i = Some x -> nth_z l j = Some x -> i = j.
Proof.
  intros Hd Hi Hj. pose proof (nth_z_range _ _ _ Hi).
  pose proof (nth_z_range _ _ _ Hj). unfold nth_z in *.
  destruct (i <? 0); [discriminate|]. destruct (j <? 0); [discriminate|].
  assert (Z.to_nat i = Z.to_nat j); [|lia].
  eapply NoDup_nth_error; [eassumption| |congruence].
  apply nth_error_Some. congruence.
Qed.

(** ** One frame *)

(** What a finished frame did. *)
Lemma frame_result_inv record s u s' t :
  frame_result record s = Some (u, s', t) ->
  let g := globals s in
  let w := world s in
  exists a res b ps waits' k ks target g2,
    nth_z (commandAllocators g) (frameIndex g) = Some a
    /\ nth_z (renderTargets g) (frameIndex g) = Some res
    /\ presentOracle w = b :: ps
    /\ upd_z (swapFenceWaitValue g) (frameIndex g) (swapFenceCounter g)
       = Some waits'
    /\ gpuOracle w = k :: ks
    /\ nth_z waits' (int32_of_uint32 b) = Some target
    /\ let g1 := gpu_run k (mkGpu (fenceValue (gpu w))
                   (gpuQueue (gpu w)
                    ++ [QExec a; QPresent; QSignal (swapFenceCounter g)])) in
       (if fenceValue g1 <? target then gpu_until target g1 = Some g2
        else g2 = g1)
       /\ globals s' = synced waits' (int32_of_uint32 b) g
       /\ gpu (world s') = g2
       /\ backBuffer (world s') = b
       /\ presentOracle (world s') = ps
       /\ gpuOracle (world s') = ks
       /\ t = record s a res ++ submit_present g
              ++ polled g b (fenceValue g1)
              ++ (if fenceValue g1 <? target then blocked g target else []).
Proof.
  destruct s as [g w]. unfold frame_result, sync_result.
  cbn [globals world].
  destruct (nth_z (commandAllocators g) _) as [a|] eqn:Ea; [|discriminate].
  destruct (nth_z (renderTargets g) _) as [res|] eqn:Er; [|discriminate].
  destruct (presentOracle w) as [|b ps] eqn:Ep; [discriminate|].
  destruct (upd_z _ _ _) as [waits'|] eqn:Eu; [|discriminate].
  cbn. destruct (gpuOracle w) as [|k ks] eqn:Eg; [discriminate|].
  destruct (nth_z waits' _) as [target|] eqn:Et; [|discriminate].
  rewrite orb_false_r, <- app_assoc. cbn [app].
  intros H. exists a, res, b, ps, waits', k, ks, target.
  destruct (_ <? _) eqn:Ec.
  - destruct (gpu_until _ _) as [g2|] eqn:Ew; [|discriminate].
    injection H as <- <- <-. exists g2. cbn.
    repeat split; try reflexivity; assumption.
  - injection H as <- <- <-. eexists. cbn.
    repeat split; try reflexivity; assumption.
Qed.

(** A frame ends with the fence at or past the value recorded for the
    frame that comes next, whatever state it started in. *)
Lemma frame_Ready record s u s' t :
  frame_result record s = Some (u, s', t) -> Ready s'.
Proof.
  intros H. apply frame_result_inv in H.
  destruct H as (a & res & b & ps & waits' & k & ks & target & g2 & _ & _ & _
                 & _ & _ & Ht & Hw & Hg & Hgpu & _).
  exists target. rewrite Hg, Hgpu. cbn. split; [assumption|].
  destruct (_ <? _) eqn:Ec.
  - now apply gpu_until_run in Hw.
  - subst g2. now apply Z.ltb_ge in Ec.
Qed.

(** The allocator of the current frame has no work in flight. *)
Lemma Inv_idle s a :
  Inv s ->
  nth_z (commandAllocators (globals s)) (frameIndex (globals s)) = Some a ->
  ~ in_flight a (gpu (world s)).
Proof.
  intros HI Ha. destruct (inv_ready s HI) as (v & Hv & Hle).
  unfold in_flight. apply exec_guarded_idle with v.
  - now apply (inv_guarded s HI (frameIndex (globals s))).
  - rewrite in_signals. destruct (inv_signals s HI) as (n & -> & _).
    rewrite in_zseq. lia.
Qed.

Lemma wrap64_small z : 0 <= z < 2 ^ 64 -> wrap64 z = z.
Proof. intros H. unfold wrap64. now apply Z.mod_small. Qed.

(** A frame keeps the invariant as long as its increment of the counter
    does not wrap. *)
Lemma frame_Inv record s u s' t :
  Inv s -> swapFenceCounter (globals s) < 2 ^ 64 - 1 ->
  frame_result record s = Some (u, s', t) ->
  Inv s'
  /\ swapFenceCounter (globals s') = swapFenceCounter (globals s) + 1.
Proof.
  intros HI Hc H. pose proof (frame_Ready _ _ _ _ _ H) as Hr.
  apply frame_result_inv in H.
  destruct H as (a & res & b & ps & waits' & k & ks & target & g2 & Ha & _ & _
                 & Hu & _ & Ht & Hw & Hg & Hgpu & Hb & _).
  destruct (upd_z_spec _ _ _ _ Hu) as (Hfi & Hlen & Hnew & Hold).
  pose proof (Inv_idle s a HI Ha) as Hidle.
  destruct (inv_signals s HI) as (n & Hsig & Hn).
  pose proof (inv_fence s HI) as Hf.
  assert (Hc' : wrap64 (swapFenceCounter (globals s) + 1)
                = swapFenceCounter (globals s) + 1)
    by (apply wrap64_small; lia).
  set (q3 := gpuQueue (gpu (world s))
             ++ [QExec a; QPresent; QSignal (swapFenceCounter (globals s))])
    in *.
  set (g0 := mkGpu (fenceValue (gpu (world s))) q3) in *.
  (* the queue after submission *)
  assert (Hs0 : signals_in_sequence (swapFenceCounter (globals s) + 1) g0).
  { exists (S n). unfold g0, q3. cbn [gpuQueue fenceValue].
    rewrite signals_app, Hsig, zseq_snoc. cbn [signals].
    split; [|lia]. do 2 f_equal. lia. }
  assert (Hg0 : forall i a' v,
             nth_z (commandAllocators (globals s)) i = Some a' ->
             nth_z waits' i = Some v -> exec_guarded a' v q3).
  { intros i a' v Hi Hv. unfold q3.
    destruct (Z.eq_dec i (frameIndex (globals s))) as [->|Hne].
    - assert (a' = a) by congruence. assert (v = swapFenceCounter (globals s))
        by congruence. subst.
      apply exec_guarded_app; [now apply exec_guarded_absent|].
      cbn. split; [|exact I]. intros _. right. now left.
    - rewrite Hold in Hv by assumption.
      apply exec_guarded_app; [now apply (inv_guarded s HI i)|].
      apply exec_guarded_absent. cbn. intros [E|[E|[E|[]]]]; try discriminate.
      injection E as ->. apply Hne.
      now apply (nth_z_NoDup _ _ _ _ (inv_allocators s HI) Hi Ha). }
  (* the GPU ran from there *)
  assert (Hrun : exists j, g2 = gpu_run j g0).
  { destruct (_ <? _).
    - apply gpu_until_run in Hw as [_ [j ->]].
      exists (k + j)%nat. apply gpu_run_add.
    - now exists k. }
  destruct Hrun as [j Hj].
  split; [|now rewrite Hg; cbn; rewrite Hc'].
  constructor; rewrite ?Hg, ?Hgpu, ?Hb, ?Hj; cbn; rewrite ?Hc'.
  - apply (inv_allocators s HI).
  - apply (inv_allocators_len s HI).
  - apply (inv_targets_len s HI).
  - rewrite Hlen. apply (inv_waits_len s HI).
  - apply fence_run_nonneg with (swapFenceCounter (globals s) + 1);
      assumption.
  - lia.
  - now apply signals_in_sequence_run.
  - eapply upd_z_Forall; [eassumption| |lia].
    eapply Forall_impl; [|apply (inv_waits s HI)]. cbn. intros; lia.
  - intros i a' v Hi Hv. apply exec_guarded_run. cbn. eauto.
  - reflexivity.
  - assumption.
Qed.

(** ** Initialisation *)

Lemma opened_app t1 t2 : opened (t1 ++ t2) = opened t1 ++ opened t2.
Proof.
  induction t1 as [|e t1 IH]; [reflexivity|].
  destruct e; cbn; try assumption. now rewrite IH.
Qed.

Lemma signalled_app t1 t2 : signalled (t1 ++ t2) = signalled t1 ++ signalled t2.
Proof.
  induction t1 as [|e t1 IH]; [reflexivity|].
  destruct e; cbn; try assumption. now rewrite IH.
Qed.

Lemma readShader_result_trace fs mp filePath out r t :
  readShader_result fs mp filePath out = Some (r, t) ->
  opened t = [shader_path mp filePath]
  /\ filter is_fence_creation t = []
  /\ filter is_event_creation t = []
  /\ signalled t = []
  /\ forall f e, Forall (sync_uses f e) t.
Proof.
  unfold readShader_result. cbv zeta.
  destruct (lookup_file _ _) as [f|].
  - destruct (reported f) as [size|]; [|discriminate].
    intros [= <- <-]. repeat split. intros; repeat constructor.
  - intros [= <- <-]. repeat split. intros; repeat constructor.
Qed.

(** Running a computation one call at a time. *)

Lemma step_ret {A B} (a : A) (k : A -> M B) s : bind (ret a) k s = k a s.
Proof. apply bind_ret_l. Qed.

Lemma step_getG {A B} (f : Globals -> A) (k : A -> M B) s :
  bind (getG f) k s = k (f (globals s)) s.
Proof. unfold bind, getG. now destruct (k _ s) as [[[b s2] t2]|]. Qed.

Lemma step_getW {A B} (f : World -> A) (k : A -> M B) s :
  bind (getW f) k s = k (f (world s)) s.
Proof. unfold bind, getW. now destruct (k _ s) as [[[b s2] t2]|]. Qed.

Lemma step_modG {B} f (k : unit -> M B) s :
  bind (modG f) k s = k tt (mkSt (f (globals s)) (world s)).
Proof. unfold bind, modG. now destruct (k _ _) as [[[b s2] t2]|]. Qed.

Lemma step_modW {B} f (k : unit -> M B) s :
  bind (modW f) k s = k tt (mkSt (globals s) (f (world s))).
Proof. unfold bind, modW. now destruct (k _ _) as [[[b s2] t2]|]. Qed.

Lemma step_emit {B} e (k : unit -> M B) s :
  bind (emit e) k s = prepend [e] (k tt s).
Proof. reflexivity. Qed.

Lemma step_some {A B} (a : A) (k : A -> M B) s :
  bind (of_option (Some a)) k s = k a s.
Proof. apply bind_ret_l. Qed.

Lemma step_readShader {B} filePath out (k : HRESULT * list byte -> M B) s :
  bind (readShader filePath out) k s
  = match readShader_result (files (world s)) (modulePath (world s))
            filePath out
    with
    | Some (r, t) => prepend t (k r s)
    | None => None
    end.
Proof.
  unfold bind. rewrite readShader_eq.
  now destruct (readShader_result _ _ _ _) as [[r t]|].
Qed.

Lemma prepend_None {A} t : @prepend A t None = None.
Proof. reflexivity. Qed.

Lemma prepend_prepend {A} t1 t2 (r : option (A * St * list Event)) :
  prepend t1 (prepend t2 r) = prepend (t1 ++ t2) r.
Proof. destruct r as [[[a s] t]|]; [|reflexivity]. cbn. now rewrite app_assoc. Qed.

Lemma modG_run f s : modG f s = Some (tt, mkSt (f (globals s)) (world s), []).
Proof. reflexivity. Qed.

Lemma opens_same w w' filePath :
  files w' = files w -> modulePath w' = modulePath w ->
  opens w' filePath = opens w filePath.
Proof. unfold opens. now intros -> ->. Qed.

Ltac simp_state :=
  cbv beta;
  cbn [globals world app
       set_device set_commandQueue set_commandAllocators set_commandList
       set_swapChain set_swapChainRtvHeap set_depthStencilViewHeap
       set_pipelineState set_pipelineRootSignature set_renderTargets
       set_depthStencilTarget set_vertexShader set_pixelShader set_frameIndex
       set_fenceEvent set_swapFence set_swapFenceCounter
       set_swapFenceWaitValue
       set_nextHandle set_backBuffer set_gpu set_listAllocator
       set_eventTarget set_presentOracle set_gpuOracle
       device commandQueue commandAllocators commandList swapChain
       swapChainRtvHeap depthStencilViewHeap pipelineState
       pipelineRootSignature renderTargets depthStencilTarget vertexShader
       pixelShader frameIndex fenceEvent swapFence swapFenceCounter
       swapFenceWaitValue
       modulePath files rtvHeapStart rtvIncrement dsvHeapStart nextHandle
       backBuffer gpu listAllocator eventTarget presentOracle gpuOracle
       fenceValue gpuQueue].

Lemma upd_z_0 {A} (x y z v : A) : upd_z [x; y; z] 0 v = Some [v; y; z].
Proof. reflexivity. Qed.
Lemma upd_z_1 {A} (x y z v : A) : upd_z [x; y; z] (0 + 1) v = Some [x; v; z].
Proof. reflexivity. Qed.
Lemma upd_z_2 {A} (x y z v : A) :
  upd_z [x; y; z] (0 + 1 + 1) v = Some [x; y; v].
Proof. reflexivity. Qed.
Lemma nth_z_0 {A} (x : A) l : nth_z (x :: l) 0 = Some x.
Proof. reflexivity. Qed.

Ltac step :=
  first [ rewrite bind_assoc | rewrite step_ret | rewrite step_getG
        | rewrite step_getW | rewrite step_modG | rewrite step_modW
        | rewrite step_emit | rewrite step_some | rewrite step_readShader
        | rewrite prepend_prepend
        | rewrite upd_z_0 | rewrite upd_z_1 | rewrite upd_z_2
        | rewrite nth_z_0 | rewrite modG_run ];
  simp_state.

Ltac run_init :=
  unfold createRenderTargetViews, createCommandQueue, createSwapChainForHwnd,
    createCommandList, createFence, CreateEvent, commandList_Close;
  change (Z.to_nat kFrameCount) with 3%nat;
  cbn [for_range create_n]; unfold create, globals0;
  repeat step.

(** The invariant holds of a state with three allocators of consecutive
    handles, an empty queue, the fence at 0 and the counter at 1. *)
Lemma Inv_start s a :
  commandAllocators (globals s) = [a; a + 1; a + 1 + 1] ->
  List.length (renderTargets (globals s)) = 3%nat ->
  swapFenceWaitValue (globals s) = [0; 0; 0] ->
  swapFenceCounter (globals s) = 1 ->
  frameIndex (globals s) = 0 ->
  gpu (world s) = mkGpu 0 [] ->
  backBuffer (world s) = 0 ->
  Inv s.
Proof.
  intros Ha Hr Hw Hc Hf Hg Hb.
  constructor; unfold Ready; rewrite ?Ha, ?Hw, ?Hc, ?Hf, ?Hg, ?Hb; cbn;
    try reflexivity; try lia; try assumption.
  - repeat constructor; cbn; lia.
  - now exists 0%nat.
  - repeat constructor; lia.
  - exists 0. split; [reflexivity|lia].
Qed.

Ltac init_ok H1 H2 :=
  pose proof (readShader_result_trace _ _ _ _ _ _ H1)
    as (Ho1 & Hf1 & He1 & Hs1 & Hy1);
  pose proof (readShader_result_trace _ _ _ _ _ _ H2)
    as (Ho2 & Hf2 & He2 & Hs2 & Hy2);
  constructor; cbn; try reflexivity;
  [ eapply Inv_start; reflexivity
  | unfold loaded; now rewrite H1
  | unfold loaded; now rewrite H2
  | rewrite !opened_app, Ho1, Ho2; reflexivity
  | rewrite !filter_app, Hf1, Hf2; reflexivity
  | rewrite !filter_app, He1, He2; reflexivity
  | split;
    [ rewrite !signalled_app, Hs1, Hs2; reflexivity
    | repeat first [ apply Forall_cons; [exact I|]
                   | apply Forall_app; split
                   | apply Hy1 | apply Hy2
                   | apply Forall_nil ] ] ].

(** Initialisation, run to its end. *)
Ltac run_to_end H1 H2 :=
  run_init;
  match goal with
  | |- context [readShader_result ?fs ?mp ?f ?out] =>
      destruct (readShader_result fs mp f out) as [[? ?]|] eqn:H1;
      [|rewrite ?prepend_None; discriminate]
  end;
  repeat step;
  match goal with
  | |- context [readShader_result ?fs ?mp "simple_ps.cso" ?out] =>
      destruct (readShader_result fs mp "simple_ps.cso" out) as [[? ?]|] eqn:H2;
      [|rewrite ?prepend_None; discriminate]
  end;
  repeat step.

Lemma tiny_initializeD3d w s t :
  Tiny.initializeD3d (mkSt globals0 w) = Some (tt, s, t) -> InitOk w s t.
Proof.
  unfold Tiny.initializeD3d. run_to_end H1 H2. unfold prepend.
  intros [= <- <-]. init_ok H1 H2.
Qed.

Lemma triangle_initializeD3d w s t :
  Triangle.initializeD3d (mkSt globals0 w) = Some (tt, s, t) -> InitOk w s t.
Proof.
  unfold Triangle.initializeD3d. run_to_end H1 H2. unfold prepend.
  intros [= <- <-]. init_ok H1 H2.
Qed.




(** ** The render loop *)

(** The last frame of a loop may be taken off its end. *)
Lemma runMainLoop_snoc n d s :
  runMainLoop (S n) d s = bind (runMainLoop n d) (fun _ => d) s.
Proof.
  revert s. induction n as [|n IH]; intros s.
  - cbn [runMainLoop]. now rewrite bind_ret_l, bind_ret_r.
  - change (runMainLoop (S (S n)) d s)
      with (bind d (fun _ => runMainLoop (S n) d) s).
    rewrite (bind_ext d _ (fun _ => bind (runMainLoop n d) (fun _ => d)))
      by (intros; apply IH).
    now rewrite <- bind_assoc.
Qed.

Lemma runMainLoop_ext n d1 d2 s :
  (forall s', d1 s' = d2 s') -> runMainLoop n d1 s = runMainLoop n d2 s.
Proof.
  intros H. revert s. induction n as [|n IH]; intros s; [reflexivity|].
  cbn [runMainLoop]. unfold bind. rewrite H.
  destruct (d2 s) as [[[u s1] t1]|]; [|reflexivity]. now rewrite IH.
Qed.

Lemma runMainLoop_add n m d s :
  runMainLoop (n + m) d s = bind (runMainLoop n d) (fun _ => runMainLoop m d) s.
Proof.
  revert s. induction n as [|n IH]; intros s.
  - cbn [Nat.add runMainLoop]. now rewrite bind_ret_l.
  - cbn [Nat.add runMainLoop]. rewrite bind_assoc. now apply bind_ext.
Qed.

Section Loop.

Variables init draw : M unit.

Lemma after_0 w s t :
  after init draw w 0 s t <-> init (mkSt globals0 w) = Some (tt, s, t).
Proof.
  unfold after. cbn [runMainLoop]. now rewrite bind_ret_r.
Qed.

Lemma after_S w n s' t' :
  after init draw w (S n) s' t' <->
  exists s t t2,
    after init draw w n s t /\ draw s = Some (tt, s', t2) /\ t' = t ++ t2.
Proof.
  unfold after.
  rewrite (bind_ext init _ (fun _ => bind (runMainLoop n draw) (fun _ => draw)))
    by (intros; apply runMainLoop_snoc).
  rewrite <- bind_assoc. split.
  - intros H. apply bind_inv in H as ([] & s & t & t2 & H1 & H2 & ->).
    now exists s, t, t2.
  - intros (s & t & t2 & H1 & H2 & ->). now apply bind_intro with tt s.
Qed.

(** Proving a property of all states and traces of the loop. *)
Lemma after_ind (P : nat -> St -> list Event -> Prop) w :
  (forall s t, init (mkSt globals0 w) = Some (tt, s, t) -> P 0%nat s t) ->
  (forall n s t s' t2,
      after init draw w n s t -> P n s t -> draw s = Some (tt, s', t2) ->
      P (S n) s' (t ++ t2)) ->
  forall n s t, after init draw w n s t -> P n s t.
Proof.
  intros H0 HS. induction n as [|n IH]; intros s t H.
  - now apply H0, after_0.
  - apply after_S in H as (s0 & t0 & t2 & H1 & H2 & ->). eauto.
Qed.

End Loop.
(** * The claims *)

(** ** Shader files *)

(** What either sample's [initializeD3d] leaves behind. *)
Lemma initializeD3d_ok w s t :
  Tiny.initializeD3d (mkSt globals0 w) = Some (tt, s, t)
  \/ Triangle.initializeD3d (mkSt globals0 w) = Some (tt, s, t) ->
  InitOk w s t.
Proof.
  intros [H|H]; [exact (tiny_initializeD3d _ _ _ H)
                |exact (triangle_initializeD3d _ _ _ H)].
Qed.

(** C6. When the shader file cannot be opened, [readShader] returns
    [E_FAIL], which is not [S_OK], and hands the buffer back as it got it,
    without a call that sizes or reads the file; both samples pass the empty
    vectors [vertexShader] and [pixelShader], which so stay empty. *)
Theorem readShader_open_fails :
  forall w filePath,
    opens w filePath = None ->
    (forall out g,
        readShader filePath out (mkSt g w)
        = Some ((E_FAIL, out), mkSt g w,
                [EvGetModuleFileName 1024
                   (module_file_name 1024 (modulePath w));
                 EvOpen (shader_path (modulePath w) filePath) false]))
    /\ E_FAIL <> S_OK
    /\ (forall s t,
           Tiny.initializeD3d (mkSt globals0 w) = Some (tt, s, t)
           \/ Triangle.initializeD3d (mkSt globals0 w) = Some (tt, s, t) ->
           (filePath = "simple_vs.cso"%string -> vertexShader (globals s) = [])
           /\ (filePath = "simple_ps.cso"%string
               -> pixelShader (globals s) = [])).
Proof.
  intros w filePath Hopen. unfold opens in Hopen. repeat split.
  - intros out g. rewrite readShader_eq. cbn [world]. unfold readShader_result.
    cbv zeta. now rewrite Hopen.
  - discriminate.
  - intros ->. apply initializeD3d_ok in H.
    rewrite (init_vs _ _ _ H). unfold loaded, readShader_result. cbv zeta.
    now rewrite Hopen.
  - intros ->. apply initializeD3d_ok in H.
    rewrite (init_ps _ _ _ H). unfold loaded, readShader_result. cbv zeta.
    now rewrite Hopen.
Qed.

Lemma readShader_open_fails_witness :
  opens bare_world "simple_vs.cso" = None
  /\ readShader "simple_vs.cso" [x01] (mkSt globals0 bare_world)
     = Some ((E_FAIL, [x01]), mkSt globals0 bare_world,
             [EvGetModuleFileName 1024 "C:\demo\tiny.exe";
              EvOpen "C:\demo\simple_vs.cso" false]).
Proof.
  split; [reflexivity|].
  exact (proj1 (readShader_open_fails bare_world "simple_vs.cso" eq_refl)
           [x01] globals0).
Defined.





Lemma readShader_opened filePath out g w :
  opened (trace (readShader filePath out (mkSt g w)))
  = match readShader_result (files w) (modulePath w) filePath out with
    | Some _ => [shader_path (modulePath w) filePath]
    | None => []
    end.
Proof.
  rewrite readShader_eq. cbn [world].
  destruct (readShader_result _ _ _ _) as [[r t]|] eqn:E; [|reflexivity].
  cbn [trace]. exact (proj1 (readShader_result_trace _ _ _ _ _ _ E)).
Qed.

(** C7: the executable's directory is missed under a long module path.
    With the executable five directories of 250 characters deep, a module
    path of 1266 characters, [GetModuleFileName] leaves the first 1023
    characters in the buffer, which end inside the name of the fifth
    directory: [readShader] looks for [simple_vs.cso] in the fourth
    directory, not in the fifth, where the executable is, and so do both
    samples for both their shader files. *)
Theorem readShader_path_truncated :
  String.length (modulePath deep_world) = 1266%nat
  /\ parent_path (modulePath deep_world) = drive_path "C" (repeat long_name 5)
  /\ (forall out g,
         readShader "simple_vs.cso" out (mkSt g deep_world)
         = Some ((E_FAIL, out), mkSt g deep_world,
                 [EvGetModuleFileName 1024
                    (substring 0 1023 (modulePath deep_world));
                  EvOpen (drive_path "C"
                            (repeat long_name 4 ++ ["simple_vs.cso"%string]))
                    false]))
  /\ drive_path "C" (repeat long_name 4 ++ ["simple_vs.cso"%string])
     <> path_append (parent_path (modulePath deep_world)) "simple_vs.cso"
  /\ path_append (parent_path (modulePath deep_world)) "simple_vs.cso"
     = drive_path "C" (repeat long_name 5 ++ ["simple_vs.cso"%string])
  /\ (forall s t,
         Tiny.initializeD3d (mkSt globals0 deep_world) = Some (tt, s, t)
         \/ Triangle.initializeD3d (mkSt globals0 deep_world)
            = Some (tt, s, t) ->
         opened t
         = [drive_path "C" (repeat long_name 4 ++ ["simple_vs.cso"%string]);
            drive_path "C" (repeat long_name 4 ++ ["simple_ps.cso"%string])]).
Proof.
  assert (Hvs : shader_path (modulePath deep_world) "simple_vs.cso"
                = drive_path "C"
                    (repeat long_name 4 ++ ["simple_vs.cso"%string]))
    by (vm_compute; reflexivity).
  assert (Hps : shader_path (modulePath deep_world) "simple_ps.cso"
                = drive_path "C"
                    (repeat long_name 4 ++ ["simple_ps.cso"%string]))
    by (vm_compute; reflexivity).
  split; [vm_compute; reflexivity|]. split; [vm_compute; reflexivity|].
  split; [|split; [|split]].
  - intros out g. rewrite readShader_eq. cbn [world].
    unfold readShader_result. cbv zeta. rewrite Hvs.
    change (files deep_world) with (@nil (string * File)).
    cbn [lookup_file]. do 3 f_equal.
  - vm_compute. discriminate.
  - vm_compute. reflexivity.
  - intros s t H. apply initializeD3d_ok in H.
    rewrite (init_opened _ _ _ H). now rewrite Hvs, Hps.
Qed.

(** ** The fence logic *)

Lemma sync_result_fence_logic forced s u s' t :
  sync_result forced s = Some (u, s', t) -> fence_logic forced s t s'.
Proof.
  destruct s as [g w]. unfold sync_result, fence_logic. cbn [globals world].
  destruct (upd_z _ _ _) as [waits'|] eqn:Eu; [|discriminate].
  destruct (gpuOracle w) as [|k ks] eqn:Eg; [discriminate|].
  destruct (nth_z waits' _) as [target|] eqn:Et; [|discriminate].
  cbv zeta.
  set (g1 := gpu_run k _).
  destruct ((fenceValue g1 <? target) || forced) eqn:Ec.
  - destruct (gpu_until target g1) as [g2|] eqn:Ew; [|discriminate].
    intros [= <- <- <-]. exists waits', (fenceValue g1), target.
    rewrite Ec. cbn. repeat split; try reflexivity; try assumption.
    intros _. now apply gpu_until_run in Ew.
  - intros [= <- <- <-]. exists waits', (fenceValue g1), target.
    rewrite Ec. cbn.
    repeat split; try reflexivity; try assumption. discriminate.
Qed.

(** The frame of either sample ends with the fence logic. *)
Lemma frame_result_fence_logic record s u s' t :
  frame_result record s = Some (u, s', t) ->
  exists a res b ps t2,
    nth_z (commandAllocators (globals s)) (frameIndex (globals s)) = Some a
    /\ nth_z (renderTargets (globals s)) (frameIndex (globals s)) = Some res
    /\ presentOracle (world s) = b :: ps
    /\ t = record s a res ++ submit_present (globals s) ++ t2
    /\ fence_logic false (mkSt (globals s) (submitted a b ps (world s))) t2 s'.
Proof.
  unfold frame_result.
  destruct (nth_z (commandAllocators _) _) as [a|] eqn:Ea; [|discriminate].
  destruct (nth_z (renderTargets _) _) as [res|] eqn:Er; [|discriminate].
  destruct (presentOracle _) as [|b ps] eqn:Ep; [discriminate|].
  destruct (sync_result _ _) as [[[u' s2] t2]|] eqn:Es; [|discriminate].
  intros [= <- <- <-]. exists a, res, b, ps, t2.
  repeat split. eapply sync_result_fence_logic; eassumption.
Qed.



(** ** The render loop of a sample *)

Lemma resets_app t1 t2 : resets (t1 ++ t2) = resets t1 ++ resets t2.
Proof.
  induction t1 as [|e t1 IH]; [reflexivity|].
  destruct e; cbn; try assumption. now rewrite IH.
Qed.

Lemma tiny_record_quiet : quiet_record tiny_record.
Proof. intros s a res. repeat split. intros f e. repeat constructor. Qed.

Lemma triangle_record_quiet : quiet_record triangle_record.
Proof. intros s a res. repeat split. intros f e. repeat constructor. Qed.

Section RenderLoop.

(** What the two samples have in common: how they initialise, and that
    their [draw] is a frame. *)
Variables init draw : M unit.
Variable record : St -> Handle -> Handle -> list Event.
Hypothesis Hinit : forall w s t,
    init (mkSt globals0 w) = Some (tt, s, t) -> InitOk w s t.
Hypothesis Hdraw : forall s, draw s = frame_result record s.
Hypothesis Hrecord : quiet_record record.

(** The calls of one frame. *)
Lemma frame_trace s s' t :
  draw s = Some (tt, s', t) ->
  exists a,
    nth_z (commandAllocators (globals s)) (frameIndex (globals s)) = Some a
    /\ hd_error t = Some (EvAllocatorReset a)
    /\ resets t = [a]
    /\ signalled t = [swapFenceCounter (globals s)]
    /\ filter is_fence_creation t = []
    /\ filter is_event_creation t = []
    /\ Forall (sync_uses (swapFence (globals s)) (fenceEvent (globals s))) t.
Proof.
  rewrite Hdraw. intros H. apply frame_result_inv in H.
  destruct H as (a & res & b & ps & waits' & k & ks & target & g2 & Ha & _ & _
                 & _ & _ & _ & _ & _ & _ & _ & _ & _ & ->).
  destruct (Hrecord s a res) as (Hh & Hr & Hs & Hf & He & Hu).
  exists a. split; [assumption|].
  repeat split.
  - destruct (record s a res); [discriminate|exact Hh].
  - rewrite !resets_app, Hr. cbn. now destruct (_ <? _).
  - rewrite !signalled_app, Hs. cbn. now destruct (_ <? _).
  - rewrite !filter_app, Hf. cbn. now destruct (_ <? _).
  - rewrite !filter_app, He. cbn. now destruct (_ <? _).
  - apply Forall_app. split; [apply Hu|].
    cbn. destruct (_ <? _); repeat constructor.
Qed.

(** What a frame leaves alone, and what it does to the counter. *)
Lemma frame_globals s s' t :
  draw s = Some (tt, s', t) ->
  commandAllocators (globals s') = commandAllocators (globals s)
  /\ renderTargets (globals s') = renderTargets (globals s)
  /\ swapFence (globals s') = swapFence (globals s)
  /\ fenceEvent (globals s') = fenceEvent (globals s)
  /\ List.length (swapFenceWaitValue (globals s'))
     = List.length (swapFenceWaitValue (globals s))
  /\ swapFenceCounter (globals s') = wrap64 (swapFenceCounter (globals s) + 1).
Proof.
  rewrite Hdraw. intros H. apply frame_result_inv in H.
  destruct H as (a & res & b & ps & waits' & k & ks & target & g2 & _ & _ & _
                 & Hu & _ & _ & _ & -> & _).
  apply upd_z_spec in Hu as (_ & Hlen & _). cbn. now repeat split.
Qed.

Lemma after_init w s t :
  init (mkSt globals0 w) = Some (tt, s, t) -> InitOk w s t.
Proof. apply Hinit. Qed.

(** Every state of the loop has the fence at or past the value recorded
    for the current frame, and has an allocator for it. *)
Lemma loop_ready w n s t :
  after init draw w n s t ->
  Ready s
  /\ List.length (commandAllocators (globals s)) = 3%nat
  /\ List.length (swapFenceWaitValue (globals s)) = 3%nat.
Proof.
  revert n s t. apply after_ind.
  - intros s t H. apply after_init in H.
    pose proof (init_inv _ _ _ H) as HI.
    repeat split; [apply (inv_ready _ HI)|apply (inv_allocators_len _ HI)
                  |apply (inv_waits_len _ HI)].
  - intros n s t s' t2 _ (_ & Ha & Hw) Hd.
    destruct (frame_globals _ _ _ Hd) as (Ea & _ & _ & _ & Ew & _).
    rewrite Ea, Ew. repeat split; try assumption.
    rewrite Hdraw in Hd. eapply frame_Ready; eassumption.
Qed.

(** The counter after [n] frames, and the values signalled so far. *)
Lemma loop_counter w n s t :
  after init draw w n s t ->
  swapFenceCounter (globals s) = wrap64 (Z.of_nat n + 1)
  /\ signalled t = map wrap64 (zseq 1 n).
Proof.
  revert n s t. apply after_ind.
  - intros s t H. apply after_init in H.
    rewrite (init_counter _ _ _ H). split; [reflexivity|].
    apply (init_sync _ _ _ H).
  - intros n s t s' t2 _ [Hc Hs] Hd.
    destruct (frame_globals _ _ _ Hd) as (_ & _ & _ & _ & _ & Ec).
    destruct (frame_trace _ _ _ Hd) as (a & _ & _ & _ & Et & _).
    assert (E : wrap64 (wrap64 (Z.of_nat n + 1) + 1)
                = wrap64 (Z.of_nat (S n) + 1)).
    { unfold wrap64. rewrite Zplus_mod_idemp_l. f_equal. lia. }
    split.
    + now rewrite Ec, Hc.
    + rewrite signalled_app, Hs, Et, Hc, zseq_snoc, map_app. cbn [map].
      do 3 f_equal. lia.
Qed.

(** The fence and the event of the loop are the ones created at
    initialisation, and no others are created. *)
Lemma loop_handles w n s t :
  after init draw w n s t ->
  filter is_fence_creation t = [EvCreate (KFence 0) (swapFence (globals s))]
  /\ filter is_event_creation t
     = [EvCreate KOsEvent (fenceEvent (globals s))]
  /\ Forall (sync_uses (swapFence (globals s)) (fenceEvent (globals s))) t.
Proof.
  revert n s t. apply after_ind.
  - intros s t H. apply after_init in H.
    repeat split; [apply (init_fence _ _ _ H)|apply (init_event _ _ _ H)
                  |apply (init_sync _ _ _ H)].
  - intros n s t s' t2 _ (Hf & He & Hu) Hd.
    destruct (frame_globals _ _ _ Hd) as (_ & _ & -> & -> & _).
    destruct (frame_trace _ _ _ Hd) as (a & _ & _ & _ & _ & Ef & Ee & Eu).
    rewrite !filter_app, Hf, He, Ef, Ee. repeat split.
    apply Forall_app. now split.
Qed.


(** As long as the counter has not wrapped the invariant holds. *)
Lemma loop_Inv w n s t :
  after init draw w n s t -> Z.of_nat n < 2 ^ 64 - 1 ->
  Inv s /\ swapFenceCounter (globals s) = Z.of_nat n + 1.
Proof.
  revert n s t.
  apply (after_ind _ _
           (fun n s t => Z.of_nat n < 2 ^ 64 - 1 ->
                         Inv s /\ swapFenceCounter (globals s) = Z.of_nat n + 1)).
  - intros s t H _. apply after_init in H.
    split; [apply (init_inv _ _ _ H)|apply (init_counter _ _ _ H)].
  - intros n s t s' t2 _ IH Hd Hn.
    destruct IH as [HI Hc]; [lia|].
    rewrite Hdraw in Hd.
    destruct (frame_Inv _ _ _ _ _ HI ltac:(lia) Hd) as [HI' Hc'].
    split; [assumption|]. rewrite Hc', Hc. lia.
Qed.

End RenderLoop.




(** ** The claims on the render loop *)



(** ** More on frames *)

(** A frame whose array accesses are in range, whose environment has a
    buffer to present and a poll to answer, and whose wait, if it has to
    wait, returns, returns. *)
Lemma frame_result_intro record s a res b ps k ks waits' target g2 :
  nth_z (commandAllocators (globals s)) (frameIndex (globals s)) = Some a ->
  nth_z (renderTargets (globals s)) (frameIndex (globals s)) = Some res ->
  presentOracle (world s) = b :: ps ->
  upd_z (swapFenceWaitValue (globals s)) (frameIndex (globals s))
    (swapFenceCounter (globals s)) = Some waits' ->
  gpuOracle (world s) = k :: ks ->
  nth_z waits' (int32_of_uint32 b) = Some target ->
  (let g1 := gpu_run k (mkGpu (fenceValue (gpu (world s)))
                 (gpuQueue (gpu (world s))
                  ++ [QExec a; QPresent;
                      QSignal (swapFenceCounter (globals s))])) in
   if fenceValue g1 <? target then gpu_until target g1 = Some g2
   else g2 = g1) ->
  exists s' t,
    frame_result record s = Some (tt, s', t)
    /\ globals s' = synced waits' (int32_of_uint32 b) (globals s)
    /\ gpu (world s') = g2
    /\ backBuffer (world s') = b
    /\ presentOracle (world s') = ps
    /\ gpuOracle (world s') = ks.
Proof.
  destruct s as [g w]. cbn [globals world].
  intros Ha Hr Hp Hu Hk Ht Hw.
  unfold frame_result, sync_result. cbn [globals world].
  rewrite Ha, Hr, Hp, Hu. cbn. rewrite Hk, Ht.
  rewrite orb_false_r, <- app_assoc. cbn [app]. cbv zeta in Hw.
  destruct (_ <? _).
  - rewrite Hw. do 2 eexists. split; [reflexivity|]. now cbn.
  - subst g2. do 2 eexists. split; [reflexivity|]. now cbn.
Qed.

Lemma int32_of_frame b : 0 <= b < kFrameCount -> int32_of_uint32 b = b.
Proof.
  unfold kFrameCount, int32_of_uint32. intros H.
  destruct (b <? 2 ^ 31) eqn:E; [reflexivity|]. apply Z.ltb_ge in E. lia.
Qed.

(** Between frames, before the counter wraps, a frame returns whenever the
    swap chain moves to one of its buffers and the fence can be read. *)
Lemma frame_returns record s b ps k ks :
  Inv s ->
  presentOracle (world s) = b :: ps -> 0 <= b < kFrameCount ->
  gpuOracle (world s) = k :: ks ->
  exists s' t, frame_result record s = Some (tt, s', t).
Proof.
  intros HI Hp Hb Hk.
  destruct (inv_ready s HI) as (v & Hv & _).
  pose proof (nth_z_range _ _ _ Hv) as Hfi.
  rewrite (inv_waits_len s HI) in Hfi.
  destruct (nth_z_some (commandAllocators (globals s)) (frameIndex (globals s)))
    as [a Ha]; [now rewrite (inv_allocators_len s HI)|].
  destruct (nth_z_some (renderTargets (globals s)) (frameIndex (globals s)))
    as [res Hr]; [now rewrite (inv_targets_len s HI)|].
  destruct (upd_z_some (swapFenceWaitValue (globals s))
              (frameIndex (globals s)) (swapFenceCounter (globals s)))
    as [waits' Hu]; [now rewrite (inv_waits_len s HI)|].
  destruct (upd_z_spec _ _ _ _ Hu) as (_ & Hlen & _).
  destruct (nth_z_some waits' (int32_of_uint32 b)) as [target Ht].
  { rewrite int32_of_frame, Hlen, (inv_waits_len s HI) by assumption.
    unfold kFrameCount in Hb. lia. }
  set (g0 := mkGpu (fenceValue (gpu (world s)))
               (gpuQueue (gpu (world s))
                ++ [QExec a; QPresent; QSignal (swapFenceCounter (globals s))])).
  assert (Hs0 : signals_in_sequence (swapFenceCounter (globals s) + 1) g0).
  { destruct (inv_signals s HI) as (n & Hsig & Hn).
    exists (S n). unfold g0. cbn [gpuQueue fenceValue].
    rewrite signals_app, Hsig, zseq_snoc. cbn [signals].
    split; [|lia]. do 2 f_equal. lia. }
  assert (Htarget : target < swapFenceCounter (globals s) + 1).
  { assert (Hall : Forall (fun v => 0 <= v < swapFenceCounter (globals s) + 1)
                     waits').
    { eapply upd_z_Forall; [eassumption| |].
      - eapply Forall_impl; [|apply (inv_waits s HI)]. cbn. intros; lia.
      - pose proof (inv_fence s HI). destruct (inv_signals s HI) as (n & _ & ?).
        lia. }
    rewrite Forall_forall in Hall. apply nth_z_In in Ht.
    now apply Hall in Ht. }
  destruct (gpu_until_returns _ target (gpu_run k g0)
              (signals_in_sequence_run _ k _ Hs0) Htarget) as [g2 Hw].
  destruct (frame_result_intro record s a res b ps k ks waits' target
              (if fenceValue (gpu_run k g0) <? target then g2
               else gpu_run k g0) Ha Hr Hp Hu Hk Ht)
    as (s' & t & H & _).
  { cbv zeta. fold g0. now destruct (_ <? _). }
  now exists s', t.
Qed.

(** A frame changes three globals: the frame index, the counter and the
    recorded values; and the GPU is left somewhere on its way through the old
    queue followed by the frame's command list, the present and the signal of
    the counter. *)
Lemma frame_effect record s u s' t :
  frame_result record s = Some (u, s', t) ->
  exists a waits' j,
    nth_z (commandAllocators (globals s)) (frameIndex (globals s)) = Some a
    /\ upd_z (swapFenceWaitValue (globals s)) (frameIndex (globals s))
         (swapFenceCounter (globals s)) = Some waits'
    /\ globals s'
       = set_frameIndex (frameIndex (globals s'))
           (set_swapFenceCounter (wrap64 (swapFenceCounter (globals s) + 1))
              (set_swapFenceWaitValue waits' (globals s)))
    /\ gpu (world s')
       = gpu_run j (mkGpu (fenceValue (gpu (world s)))
                      (gpuQueue (gpu (world s))
                       ++ [QExec a; QPresent;
                           QSignal (swapFenceCounter (globals s))])).
Proof.
  intros H. apply frame_result_inv in H.
  destruct H as (a & res & b & ps & waits' & k & ks & target & g2 & Ha & _ & _
                 & Hu & _ & _ & Hw & Hg & Hgpu & _).
  assert (Hj : exists j, g2 = gpu_run j
                 (mkGpu (fenceValue (gpu (world s)))
                    (gpuQueue (gpu (world s))
                     ++ [QExec a; QPresent;
                         QSignal (swapFenceCounter (globals s))]))).
  { destruct (_ <? _).
    - apply gpu_until_run in Hw as [_ [j ->]].
      exists (k + j)%nat. apply gpu_run_add.
    - now exists k. }
  destruct Hj as [j Hj].
  exists a, waits', j. rewrite Hgpu, Hg. now repeat split.
Qed.




(** ** Further properties of the samples *)


Lemma zseq_sorted a n : StronglySorted Z.lt (zseq a n).
Proof.
  revert a. induction n as [|n IH]; intros a; cbn [zseq]; constructor.
  - apply IH.
  - apply Forall_forall. intros v Hv. apply in_zseq in Hv. lia.
Qed.

Lemma map_wrap64_zseq a n :
  0 <= a -> a + Z.of_nat n <= 2 ^ 64 -> map wrap64 (zseq a n) = zseq a n.
Proof.
  revert a. induction n as [|n IH]; intros a Ha Hn; [reflexivity|].
  cbn [zseq map]. rewrite wrap64_small by lia. f_equal. apply IH; lia.
Qed.




(** ** The claims on the loop as a whole *)


Lemma loop_state w n s t :
  after Tiny.initializeD3d Tiny.draw w n s t
  \/ after Triangle.initializeD3d Triangle.draw w n s t ->
  Z.of_nat n < 2 ^ 64 - 1 ->
  Inv s /\ swapFenceCounter (globals s) = Z.of_nat n + 1.
Proof.
  intros [H|H] Hn.
  - exact (loop_Inv _ _ _ tiny_initializeD3d tiny_draw_eq _ _ _ _ H Hn).
  - exact (loop_Inv _ _ _ triangle_initializeD3d triangle_draw_eq
             _ _ _ _ H Hn).
Qed.

(** C1. In every state the render loop of either sample reaches, the fence
    has reached the value recorded for the current frame index, which is
    how the synchronisation that ended the frame before has left it, and the
    frame drawn next resets the allocator of that index, first of all its
    calls, and no other allocator.  As long as the counter has not wrapped,
    that is for the first 2^64 - 2 frames (each is presented at a vertical
    blank of its own), every command list still in the queue is followed
    there by the signal of the value recorded for its allocator, so that the
    allocator reset has no work in flight. *)
Theorem reset_after_fence :
  forall w n s t,
    after Tiny.initializeD3d Tiny.draw w n s t
    \/ after Triangle.initializeD3d Triangle.draw w n s t ->
    exists a v,
      nth_z (commandAllocators (globals s)) (frameIndex (globals s)) = Some a
      /\ nth_z (swapFenceWaitValue (globals s)) (frameIndex (globals s))
         = Some v
      /\ v <= fenceValue (gpu (world s))
      /\ (forall s' t',
             Tiny.draw s = Some (tt, s', t')
             \/ Triangle.draw s = Some (tt, s', t') ->
             hd_error t' = Some (EvAllocatorReset a) /\ resets t' = [a])
      /\ (Z.of_nat n < 2 ^ 64 - 1 ->
          (forall i a' v',
              nth_z (commandAllocators (globals s)) i = Some a' ->
              nth_z (swapFenceWaitValue (globals s)) i = Some v' ->
              exec_guarded a' v' (gpuQueue (gpu (world s))))
          /\ ~ in_flight a (gpu (world s))).
Proof.
  intros w n s t H.
  assert (Hr : Ready s
               /\ List.length (commandAllocators (globals s)) = 3%nat
               /\ List.length (swapFenceWaitValue (globals s)) = 3%nat).
  { destruct H as [H|H].
    - exact (loop_ready _ _ _ tiny_initializeD3d tiny_draw_eq _ _ _ _ H).
    - exact (loop_ready _ _ _ triangle_initializeD3d triangle_draw_eq
               _ _ _ _ H). }
  destruct Hr as ((v & Hv & Hle) & Ha & Hw).
  pose proof (nth_z_range _ _ _ Hv) as Hfi. rewrite Hw in Hfi.
  destruct (nth_z_some (commandAllocators (globals s)) (frameIndex (globals s)))
    as [a Ea]; [now rewrite Ha|].
  exists a, v. split; [exact Ea|]. split; [exact Hv|]. split; [exact Hle|].
  split.
  - intros s' t' [Hd|Hd].
    + destruct (frame_trace _ _ tiny_draw_eq tiny_record_quiet _ _ _ Hd)
        as (a' & Ea' & Hh & Hres & _).
      assert (a' = a) by congruence. subst a'. now split.
    + destruct (frame_trace _ _ triangle_draw_eq triangle_record_quiet
                  _ _ _ Hd) as (a' & Ea' & Hh & Hres & _).
      assert (a' = a) by congruence. subst a'. now split.
  - intros Hn. destruct (loop_state _ _ _ _ H Hn) as [HI _]. split.
    + exact (inv_guarded s HI).
    + exact (Inv_idle s a HI Ea).
Qed.

Lemma reset_after_fence_witness :
  after Tiny.initializeD3d Tiny.draw (demo_world [1; 2; 0] [0; 0; 0]%nat) 3
    (fst (tiny_after [1; 2; 0] [0; 0; 0]%nat 3))
    (snd (tiny_after [1; 2; 0] [0; 0; 0]%nat 3))
  /\ exists a v,
      nth_z (commandAllocators
               (globals (fst (tiny_after [1; 2; 0] [0; 0; 0]%nat 3))))
        (frameIndex (globals (fst (tiny_after [1; 2; 0] [0; 0; 0]%nat 3))))
      = Some a
      /\ v <= fenceValue
                (gpu (world (fst (tiny_after [1; 2; 0] [0; 0; 0]%nat 3))))
      /\ ~ in_flight a
           (gpu (world (fst (tiny_after [1; 2; 0] [0; 0; 0]%nat 3)))).
Proof.
  split; [unfold after; now vm_compute|].
  destruct (reset_after_fence (demo_world [1; 2; 0] [0; 0; 0]%nat) 3
              (fst (tiny_after [1; 2; 0] [0; 0; 0]%nat 3))
              (snd (tiny_after [1; 2; 0] [0; 0; 0]%nat 3)))
    as (a & v & Ha & _ & Hle & _ & Hn); [left; unfold after; now vm_compute|].
  exists a, v. split; [exact Ha|]. split; [exact Hle|].
  apply Hn. now vm_compute.
Defined.

Lemma loop_counts w n s t :
  after Tiny.initializeD3d Tiny.draw w n s t
  \/ after Triangle.initializeD3d Triangle.draw w n s t ->
  swapFenceCounter (globals s) = wrap64 (Z.of_nat n + 1)
  /\ signalled t = map wrap64 (zseq 1 n).
Proof.
  intros [H|H].
  - exact (loop_counter _ _ _ tiny_initializeD3d tiny_draw_eq
             tiny_record_quiet _ _ _ _ H).
  - exact (loop_counter _ _ _ triangle_initializeD3d triangle_draw_eq
             triangle_record_quiet _ _ _ _ H).
Qed.

Lemma loop_fence w n s t :
  after Tiny.initializeD3d Tiny.draw w n s t
  \/ after Triangle.initializeD3d Triangle.draw w n s t ->
  filter is_fence_creation t = [EvCreate (KFence 0) (swapFence (globals s))].
Proof.
  intros [H|H].
  - exact (proj1 (loop_handles _ _ _ tiny_initializeD3d tiny_draw_eq
                    tiny_record_quiet _ _ _ _ H)).
  - exact (proj1 (loop_handles _ _ _ triangle_initializeD3d triangle_draw_eq
                    triangle_record_quiet _ _ _ _ H)).
Qed.

Lemma sync_result_signalled forced s u s' t :
  sync_result forced s = Some (u, s', t) ->
  signalled t = [swapFenceCounter (globals s)]
  /\ swapFenceCounter (globals s') = wrap64 (swapFenceCounter (globals s) + 1).
Proof.
  intros H. apply sync_result_fence_logic in H.
  destruct H as (waits' & completed & target & _ & _ & Hc & _ & -> & _).
  split; [|exact Hc]. rewrite signalled_app. cbn.
  now destruct (_ || _).
Qed.

(** C3. The fence counter is 0 when the program starts; the fence is
    created with that value, which makes the counter 1, and every frame
    signals the counter and adds one to it, as does the window-destroy
    handler of [triangle]: after [n] frames the counter is [n + 1] and the
    values signalled are 1, 2, ..., [n], in this order, all modulo 2^64.
    For fewer than 2^64 - 1 frames, each presented at a vertical blank of
    its own, nothing wraps, and every value signalled is greater than all the
    values signalled before it. *)
Theorem counter_counts_frames :
  forall w n s t,
    after Tiny.initializeD3d Tiny.draw w n s t
    \/ after Triangle.initializeD3d Triangle.draw w n s t ->
    swapFenceCounter globals0 = 0
    /\ filter is_fence_creation t
       = [EvCreate (KFence 0) (swapFence (globals s))]
    /\ swapFenceCounter (globals s) = wrap64 (Z.of_nat n + 1)
    /\ signalled t = map wrap64 (zseq 1 n)
    /\ (forall s' t',
           Triangle.onWindowDestroy s = Some (tt, s', t') ->
           swapFenceCounter (globals s') = wrap64 (Z.of_nat n + 1 + 1)
           /\ signalled (t ++ t') = map wrap64 (zseq 1 (S n)))
    /\ (Z.of_nat n < 2 ^ 64 - 1 ->
        swapFenceCounter (globals s) = Z.of_nat n + 1
        /\ signalled t = zseq 1 n
        /\ StronglySorted Z.lt (signalled t)
        /\ forall s' t',
            Triangle.onWindowDestroy s = Some (tt, s', t') ->
            StronglySorted Z.lt (signalled (t ++ t'))).
Proof.
  intros w n s t H. destruct (loop_counts _ _ _ _ H) as [Hc Hs].
  split; [reflexivity|]. split; [exact (loop_fence _ _ _ _ H)|].
  split; [exact Hc|]. split; [exact Hs|].
  assert (Hd : forall s' t',
             Triangle.onWindowDestroy s = Some (tt, s', t') ->
             swapFenceCounter (globals s') = wrap64 (Z.of_nat n + 1 + 1)
             /\ signalled (t ++ t') = map wrap64 (zseq 1 (S n))).
  { intros s' t' Hd. unfold Triangle.onWindowDestroy in Hd.
    rewrite waitGpu_eq in Hd.
    destruct (sync_result_signalled _ _ _ _ _ Hd) as [Hs' Hc'].
    split.
    - rewrite Hc', Hc. unfold wrap64. now rewrite Zplus_mod_idemp_l.
    - rewrite signalled_app, Hs, Hs', Hc, zseq_snoc, map_app. cbn [map].
      now rewrite Z.add_comm. }
  split; [exact Hd|].
  intros Hn. rewrite Hs, map_wrap64_zseq by lia.
  split; [rewrite Hc; apply wrap64_small; lia|].
  split; [reflexivity|]. split; [apply zseq_sorted|].
  intros s' t' Hd'. rewrite (proj2 (Hd s' t' Hd')).
  rewrite map_wrap64_zseq by lia. apply zseq_sorted.
Qed.

Lemma counter_counts_frames_witness :
  after Triangle.initializeD3d Triangle.draw
    (demo_world [1; 2; 0] [0; 0; 0; 0]%nat) 3
    (fst (triangle_after [1; 2; 0] [0; 0; 0; 0]%nat 3))
    (snd (triangle_after [1; 2; 0] [0; 0; 0; 0]%nat 3))
  /\ swapFenceCounter (globals (fst (triangle_after [1; 2; 0]
                                       [0; 0; 0; 0]%nat 3))) = 4
  /\ signalled (snd (triangle_after [1; 2; 0] [0; 0; 0; 0]%nat 3)) = [1; 2; 3]
  /\ StronglySorted Z.lt
       (signalled (snd (triangle_after [1; 2; 0] [0; 0; 0; 0]%nat 3))).
Proof.
  split; [unfold after; now vm_compute|].
  destruct (counter_counts_frames (demo_world [1; 2; 0] [0; 0; 0; 0]%nat) 3
              (fst (triangle_after [1; 2; 0] [0; 0; 0; 0]%nat 3))
              (snd (triangle_after [1; 2; 0] [0; 0; 0; 0]%nat 3)))
    as (_ & _ & _ & _ & _ & Hn); [right; unfold after; now vm_compute|].
  destruct Hn as (Hc & Hs & Hsorted & _); [now vm_compute|].
  split; [exact Hc|]. split; [exact Hs|exact Hsorted].
Defined.




(** ** The frame *)

Lemma draw_inv s s' t :
  Tiny.draw s = Some (tt, s', t) \/ Triangle.draw s = Some (tt, s', t) ->
  exists a res b ps completed target,
    nth_z (commandAllocators (globals s)) (frameIndex (globals s)) = Some a
    /\ nth_z (renderTargets (globals s)) (frameIndex (globals s)) = Some res
    /\ presentOracle (world s) = b :: ps
    /\ exists record,
        (Tiny.draw s = Some (tt, s', t) /\ record = tiny_record s a res
         \/ Triangle.draw s = Some (tt, s', t)
            /\ record = triangle_record s a res)
        /\ t = record ++ submit_present (globals s)
               ++ polled (globals s) b completed
               ++ (if completed <? target then blocked (globals s) target
                   else []).
Proof.
  intros [H|H]; pose proof H as H0.
  - rewrite tiny_draw_eq in H. apply frame_result_fence_logic in H.
    destruct H as (a & res & b & ps & t2 & Ha & Hr & Hp & -> & Hf).
    destruct Hf as (waits' & completed & target & _ & _ & _ & _ & -> & _).
    exists a, res, b, ps, completed, target. repeat split; try assumption.
    exists (tiny_record s a res). rewrite orb_false_r in *.
    split; [left; now split|reflexivity].
  - rewrite triangle_draw_eq in H. apply frame_result_fence_logic in H.
    destruct H as (a & res & b & ps & t2 & Ha & Hr & Hp & -> & Hf).
    destruct Hf as (waits' & completed & target & _ & _ & _ & _ & -> & _).
    exists a, res, b, ps, completed, target. repeat split; try assumption.
    exists (triangle_record s a res). rewrite orb_false_r in *.
    split; [right; now split|reflexivity].
Qed.

Lemma loop_progress init draw record w n s t b ps k ks :
  (forall w s t, init (mkSt globals0 w) = Some (tt, s, t) -> InitOk w s t) ->
  (forall s, draw s = frame_result record s) ->
  after init draw w n s t ->
  Z.of_nat n < 2 ^ 64 - 1 ->
  presentOracle (world s) = b :: ps -> 0 <= b < kFrameCount ->
  gpuOracle (world s) = k :: ks ->
  exists s' t', draw s = Some (tt, s', t')
                /\ after init draw w (S n) s' (t ++ t').
Proof.
  intros Hinit Hdraw H Hn Hp Hb Hk.
  destruct (loop_Inv _ _ _ Hinit Hdraw _ _ _ _ H Hn) as [HI _].
  destruct (frame_returns record s b ps k ks HI Hp Hb Hk) as (s' & t' & Hr).
  rewrite <- Hdraw in Hr. exists s', t'. split; [exact Hr|].
  apply after_S. exists s, t, t'. split; [exact H|]. split; [exact Hr|].
  reflexivity.
Qed.

(** C4. A frame of either sample goes through its phases in the order
    record (reset the allocator and the list, barriers and clears, close the
    list), submit, present, synchronize (the fence signal and the conditional
    wait), each once.  In the render loop the frame is gone through to its
    end, and the loop goes on, whenever the swap chain answers [Present] with
    a back buffer it has (the counter not having wrapped, that is in the
    first 2^64 - 2 frames). *)
Theorem frame_phases :
  (forall s s' t,
      Tiny.draw s = Some (tt, s', t) \/ Triangle.draw s = Some (tt, s', t) ->
      phases t = [Record_commands; Submit; Present_frame; Synchronize]
      /\ exists a res record sync,
          nth_z (commandAllocators (globals s)) (frameIndex (globals s))
          = Some a
          /\ nth_z (renderTargets (globals s)) (frameIndex (globals s))
             = Some res
          /\ t = record
                 ++ [EvExecuteCommandLists (commandQueue (globals s))
                       (commandList (globals s))]
                 ++ [EvPresent (swapChain (globals s)) 1 0]
                 ++ sync
          /\ (Tiny.draw s = Some (tt, s', t) /\ record = tiny_record s a res
              \/ Triangle.draw s = Some (tt, s', t)
                 /\ record = triangle_record s a res)
          /\ hd_error record = Some (EvAllocatorReset a)
          /\ last record (EvAllocatorReset a)
             = EvListClose (commandList (globals s))
          /\ Forall (fun e => phase_of e = Record_commands) record
          /\ hd_error sync
             = Some (EvSignal (commandQueue (globals s))
                       (swapFence (globals s))
                       (swapFenceCounter (globals s)))
          /\ Forall (fun e => phase_of e = Synchronize) sync)
  /\ (forall w n s t b ps k ks,
         Z.of_nat n < 2 ^ 64 - 1 ->
         presentOracle (world s) = b :: ps -> 0 <= b < kFrameCount ->
         gpuOracle (world s) = k :: ks ->
         (after Tiny.initializeD3d Tiny.draw w n s t ->
          exists s' t',
            Tiny.draw s = Some (tt, s', t')
            /\ after Tiny.initializeD3d Tiny.draw w (S n) s' (t ++ t'))
         /\ (after Triangle.initializeD3d Triangle.draw w n s t ->
             exists s' t',
               Triangle.draw s = Some (tt, s', t')
               /\ after Triangle.initializeD3d Triangle.draw w (S n) s'
                    (t ++ t'))).
Proof.
  split.
  - intros s s' t H. apply draw_inv in H.
    destruct H as (a & res & b & ps & completed & target & Ha & Hr & _ & record
                   & Hrec & ->).
    assert (Hsync : hd_error
                      (polled (globals s) b completed
                       ++ (if completed <? target
                           then blocked (globals s) target else []))
                    = Some (EvSignal (commandQueue (globals s))
                              (swapFence (globals s))
                              (swapFenceCounter (globals s)))
                    /\ Forall (fun e => phase_of e = Synchronize)
                         (polled (globals s) b completed
                          ++ (if completed <? target
                              then blocked (globals s) target else [])))
      by (split; [reflexivity|];
          destruct (completed <? target); repeat constructor).
    destruct Hsync as [Hhd Hall].
    split.
    + destruct Hrec as [[_ ->]|[_ ->]]; now destruct (completed <? target).
    + exists a, res, record,
        (polled (globals s) b completed
         ++ (if completed <? target then blocked (globals s) target else [])).
      split; [exact Ha|]. split; [exact Hr|]. split; [reflexivity|].
      split; [exact Hrec|].
      destruct Hrec as [[_ ->]|[_ ->]];
        (split; [reflexivity|]; split; [reflexivity|];
         split; [repeat constructor|]; split; [exact Hhd|exact Hall]).
  - intros w n s t b ps k ks Hn Hp Hb Hk. split; intros H.
    + exact (loop_progress _ _ _ _ _ _ _ _ _ _ _ tiny_initializeD3d
               tiny_draw_eq H Hn Hp Hb Hk).
    + exact (loop_progress _ _ _ _ _ _ _ _ _ _ _ triangle_initializeD3d
               triangle_draw_eq H Hn Hp Hb Hk).
Qed.

Lemma frame_phases_witness :
  Triangle.draw (triangle_start [1] [0]%nat)
  = Some (tt, fst (run_from Triangle.draw (triangle_start [1] [0]%nat)),
          snd (run_from Triangle.draw (triangle_start [1] [0]%nat)))
  /\ phases (snd (run_from Triangle.draw (triangle_start [1] [0]%nat)))
     = [Record_commands; Submit; Present_frame; Synchronize].
Proof.
  split; [now vm_compute|].
  apply (proj1 frame_phases (triangle_start [1] [0]%nat)
           (fst (run_from Triangle.draw (triangle_start [1] [0]%nat)))).
  right. now vm_compute.
Defined.



(** ** Paths *)





















(** ** Further properties *)










(** The two samples differ in what a frame records, not in what it leaves
    behind: from the same state, [draw] of [tiny], with the fence logic
    written out, and [draw] of [triangle], which calls [waitGpu], end in the
    same state, or both do not return. *)
Theorem draws_agree :
  forall s, final (Tiny.draw s) = final (Triangle.draw s).
Proof.
  intros s. rewrite tiny_draw_eq, triangle_draw_eq. unfold frame_result.
  destruct (nth_z (commandAllocators _) _) as [a|]; [|reflexivity].
  destruct (nth_z (renderTargets _) _) as [res|]; [|reflexivity].
  destruct (presentOracle _) as [|b ps]; [reflexivity|].
  now destruct (sync_result _ _) as [[[u s'] t]|].
Qed.

(** ** Frames in flight *)

Lemma execs_app q1 q2 : execs (q1 ++ q2) = execs q1 ++ execs q2.
Proof.
  induction q1 as [|it q1 IH]; [reflexivity|].
  destruct it; cbn; now rewrite IH.
Qed.

Lemma in_execs a q : In a (execs q) <-> In (QExec a) q.
Proof.
  induction q as [|it q IH]; [reflexivity|].
  destruct it as [a'| |v]; cbn; rewrite IH; split;
    try (intros [H|H]; [injection H as ->|]; auto);
    try (intros [->|H]; auto); try (intros [H|H]; [discriminate|auto]);
    auto.
Qed.

Lemma execs_retire g :
  exists l, execs (gpuQueue g) = l ++ execs (gpuQueue (gpu_retire g)).
Proof.
  unfold gpu_retire. destruct g as [fv [|[a| |v] q]]; cbn.
  - now exists [].
  - now exists [a].
  - now exists [].
  - now exists [].
Qed.

Lemma execs_run k g :
  exists l, execs (gpuQueue g) = l ++ execs (gpuQueue (gpu_run k g)).
Proof.
  revert g. induction k as [|k IH]; intros g; cbn [gpu_run].
  - now exists [].
  - destruct (execs_retire g) as [l1 E1].
    destruct (IH (gpu_retire g)) as [l2 E2].
    exists (l1 ++ l2). now rewrite E1, E2, app_assoc.
Qed.

Lemma frame_in_flight record s u s' t :
  Inv s ->
  frame_result record s = Some (u, s', t) ->
  NoDup (execs (gpuQueue (gpu (world s)))) ->
  incl (execs (gpuQueue (gpu (world s)))) (commandAllocators (globals s)) ->
  NoDup (execs (gpuQueue (gpu (world s'))))
  /\ incl (execs (gpuQueue (gpu (world s')))) (commandAllocators (globals s')).
Proof.
  intros HI H Hnd Hin.
  destruct (frame_effect _ _ _ _ _ H) as (a & waits' & j & Ha & _ & Hg & Hq).
  assert (Hal : commandAllocators (globals s') = commandAllocators (globals s))
    by (rewrite Hg; reflexivity).
  rewrite Hal, Hq.
  destruct (execs_run j (mkGpu (fenceValue (gpu (world s)))
                           (gpuQueue (gpu (world s))
                            ++ [QExec a; QPresent;
                                QSignal (swapFenceCounter (globals s))])))
    as [l El].
  cbn [gpuQueue] in El. rewrite execs_app in El. cbn [execs] in El.
  assert (Hnd' : NoDup (execs (gpuQueue (gpu (world s))) ++ [a])).
  { apply NoDup_app; [exact Hnd|repeat constructor; auto|].
    intros x Hx [E|[]]. subst x. apply in_execs in Hx.
    exact (Inv_idle s a HI Ha Hx). }
  assert (Hin' : incl (execs (gpuQueue (gpu (world s))) ++ [a])
                   (commandAllocators (globals s))).
  { apply incl_app; [exact Hin|]. intros x [<-|[]].
    exact (nth_z_In _ _ _ Ha). }
  rewrite El in Hnd', Hin'. split.
  - exact (NoDup_app_remove_l _ _ Hnd').
  - intros x Hx. apply Hin'. apply in_or_app. now right.
Qed.

Lemma loop_in_flight init draw record w n s t :
  (forall w s t, init (mkSt globals0 w) = Some (tt, s, t) -> InitOk w s t) ->
  (forall s, draw s = frame_result record s) ->
  after init draw w n s t ->
  Z.of_nat n < 2 ^ 64 - 1 ->
  NoDup (execs (gpuQueue (gpu (world s))))
  /\ incl (execs (gpuQueue (gpu (world s)))) (commandAllocators (globals s)).
Proof.
  intros Hinit Hdraw. revert n s t.
  apply (after_ind init draw
           (fun n s t =>
              Z.of_nat n < 2 ^ 64 - 1 ->
              NoDup (execs (gpuQueue (gpu (world s))))
              /\ incl (execs (gpuQueue (gpu (world s))))
                   (commandAllocators (globals s)))).
  - intros s t H _. rewrite (init_gpu _ _ _ (Hinit _ _ _ H)). cbn.
    split; [constructor|]. intros x [].
  - intros n s t s' t2 H IH Hd Hn. rewrite Hdraw in Hd.
    assert (Hn' : Z.of_nat n < 2 ^ 64 - 1) by lia.
    destruct (loop_Inv _ _ _ Hinit Hdraw _ _ _ _ H Hn') as [HI _].
    destruct (IH Hn') as [Hnd Hin].
    exact (frame_in_flight _ _ _ _ _ HI Hd Hnd Hin).
Qed.

(** Between two frames of either sample at most two frames are in flight,
    one less than there are back buffers, and no two of them have recorded
    into the same allocator (in the first 2^64 - 2 frames, before the
    counter wraps). *)
Theorem frames_in_flight_bounded :
  forall w n s t,
    after Tiny.initializeD3d Tiny.draw w n s t
    \/ after Triangle.initializeD3d Triangle.draw w n s t ->
    Z.of_nat n < 2 ^ 64 - 1 ->
    NoDup (execs (gpuQueue (gpu (world s))))
    /\ incl (execs (gpuQueue (gpu (world s)))) (commandAllocators (globals s))
    /\ Z.of_nat (List.length (execs (gpuQueue (gpu (world s)))))
       <= kFrameCount - 1.
Proof.
  intros w n s t H Hn.
  assert (HJ : NoDup (execs (gpuQueue (gpu (world s))))
               /\ incl (execs (gpuQueue (gpu (world s))))
                    (commandAllocators (globals s))).
  { destruct H as [H|H].
    - exact (loop_in_flight _ _ _ _ _ _ _ tiny_initializeD3d tiny_draw_eq
               H Hn).
    - exact (loop_in_flight _ _ _ _ _ _ _ triangle_initializeD3d
               triangle_draw_eq H Hn). }
  destruct HJ as [Hnd Hin]. split; [exact Hnd|]. split; [exact Hin|].
  destruct (loop_state _ _ _ _ H Hn) as [HI _].
  destruct (inv_ready s HI) as (v & Hv & _).
  pose proof (nth_z_range _ _ _ Hv) as Hfi.
  rewrite (inv_waits_len s HI) in Hfi.
  destruct (nth_z_some (commandAllocators (globals s)) (frameIndex (globals s)))
    as [a Ea]; [now rewrite (inv_allocators_len s HI)|].
  assert (Hlen : (List.length (a :: execs (gpuQueue (gpu (world s))))
                  <= List.length (commandAllocators (globals s)))%nat).
  { apply NoDup_incl_length.
    - constructor; [|exact Hnd]. intros F. apply in_execs in F.
      exact (Inv_idle s a HI Ea F).
    - intros x [<-|Hx]; [exact (nth_z_In _ _ _ Ea)|now apply Hin]. }
  rewrite (inv_allocators_len s HI) in Hlen. cbn [List.length] in Hlen.
  unfold kFrameCount. lia.
Qed.

Lemma frames_in_flight_bounded_witness :
  after Tiny.initializeD3d Tiny.draw
    (demo_world [1; 2; 0; 1] [0; 0; 0; 0]%nat) 4
    (fst (tiny_after [1; 2; 0; 1] [0; 0; 0; 0]%nat 4))
    (snd (tiny_after [1; 2; 0; 1] [0; 0; 0; 0]%nat 4))
  /\ List.length
       (execs (gpuQueue
                 (gpu (world (fst (tiny_after [1; 2; 0; 1]
                                     [0; 0; 0; 0]%nat 4))))))
     = 2%nat
  /\ Z.of_nat
       (List.length
          (execs (gpuQueue
                    (gpu (world (fst (tiny_after [1; 2; 0; 1]
                                        [0; 0; 0; 0]%nat 4)))))))
     <= kFrameCount - 1.
Proof.
  split; [unfold after; now vm_compute|]. split; [now vm_compute|].
  refine (proj2 (proj2 (frames_in_flight_bounded
                          (demo_world [1; 2; 0; 1] [0; 0; 0; 0]%nat) 4
                          (fst (tiny_after [1; 2; 0; 1] [0; 0; 0; 0]%nat 4))
                          (snd (tiny_after [1; 2; 0; 1] [0; 0; 0; 0]%nat 4))
                          _ _))).
  - left. unfold after. now vm_compute.
  - now vm_compute.
Defined.
